(** * RPS_HMAC_CLI: a shallow embedding of [rps.js] and its verification

    The program is a generalised rock-paper-scissors game for the command
    line.  The computer commits to its move with an HMAC before the human
    plays, and reveals the key afterwards.

    The embedding follows the classes of [rps.js] one module per class:
    [RPSHelper], [GameLogic], [HMACGenerator], [RPSGame], [GameController]
    and the function [main].  The JavaScript built-ins the program relies on
    ([Array.prototype.slice], [indexOf], [includes], [String.prototype.trim],
    [Number]) are modelled in the module [JS]. *)

From Stdlib Require Import List String Ascii ZArith QArith Qround Bool Lia.
From Stdlib Require Import DecimalString.
Import ListNotations.

Local Open Scope string_scope.
Local Open Scope list_scope.
Local Open Scope Z_scope.

(** ** JavaScript built-ins used by the program *)

Module JS.

(** A value held by a variable of the program that is read from the array of
    moves: a string, or [undefined] when the array has no such element. *)
Inductive value : Type :=
| undefined
| Str (s : string).

(** [a === b] on such values. *)
Definition strictEq (a b : value) : bool :=
  match a, b with
  | undefined, undefined => true
  | Str s, Str t => String.eqb s t
  | _, _ => false
  end.

(** A JavaScript number.  A finite value is held as the rational it denotes
    (every binary64 value is one); [-0] is [0].  The program only compares a
    number with [0] and with the number of moves, subtracts [1] from it and
    uses it as an array index. *)
Inductive number : Type :=
| NaN
| Infinity (negative : bool)
| Finite (q : Q).

Definition isNaN (x : number) : bool :=
  match x with NaN => true | _ => false end.

(** [x < y] and [x > y] for a number [x] and a finite [y]; every comparison
    with [NaN] is false. *)
Definition ltb (x : number) (y : Q) : bool :=
  match x with
  | NaN => false
  | Infinity negative => negative
  | Finite q => negb (Qle_bool y q)
  end.

Definition gtb (x : number) (y : Q) : bool :=
  match x with
  | NaN => false
  | Infinity negative => negb negative
  | Finite q => negb (Qle_bool q y)
  end.

(** [x - y] for a finite [y].  The difference is exact.  The program
    subtracts [1] only, to index the array with the result: for a binary64
    [x] in [[1/2, 2^53]] the binary64 difference [x - 1] is exact, below
    [1/2] the exact and the rounded difference are both negative, and above
    [2^53] both are integers beyond the length of any array, so the lookup
    is the same. *)
Definition sub (x : number) (y : Q) : number :=
  match x with
  | Finite q => Finite (q - y)%Q
  | _ => x
  end.

(** [arr.length] *)
Definition length {A : Type} (arr : list A) : Z := Z.of_nat (List.length arr).

(** [arr[x]] for a number [x]: the element when [x] is a non-negative
    integer below the length, [undefined] otherwise (an array of strings has
    no property named by a fraction, a negative number, [NaN] or
    [Infinity]). *)
Definition get (arr : list string) (x : number) : value :=
  match x with
  | Finite q =>
      if Qeq_bool (inject_Z (Qfloor q)) q && (0 <=? Qfloor q) then
        match nth_error arr (Z.to_nat (Qfloor q)) with
        | Some s => Str s
        | None => undefined
        end
      else undefined
  | _ => undefined
  end.

(** [arr.slice(start, end)]: a negative bound counts from the end of the
    array, both bounds are clamped to [0 .. length], and the result is empty
    when the clamped start is not below the clamped end. *)
Definition slice {A : Type} (arr : list A) (start end_ : Z) : list A :=
  let len := length arr in
  let k := if start <? 0 then Z.max (len + start) 0 else Z.min start len in
  let final := if end_ <? 0 then Z.max (len + end_) 0 else Z.min end_ len in
  firstn (Z.to_nat (final - k)) (skipn (Z.to_nat k) arr).

(** [arr.indexOf(x)]: the first position of [x], or [-1]. *)
Fixpoint indexOfFrom (arr : list string) (x : value) (i : Z) : Z :=
  match arr with
  | [] => -1
  | s :: rest => if strictEq (Str s) x then i else indexOfFrom rest x (i + 1)
  end.

Definition indexOf (arr : list string) (x : value) : Z := indexOfFrom arr x 0.

(** [arr.includes(x)] *)
Definition includes (arr : list string) (x : value) : bool :=
  existsb (fun s => strictEq (Str s) x) arr.

(** [new Set(arr).size]: the number of distinct elements. *)
Definition setSize (arr : list string) : Z := length (nodup string_dec arr).

(** [n % m] keeps the sign of the dividend. *)
Definition rem (n m : Z) : Z := Z.rem n m.

(** [Math.floor(n / d)] for integers [n] and [d], with the real quotient. *)
Definition floorDiv (n d : Z) : Z := Qfloor (inject_Z n / inject_Z d)%Q.

(** [s.trim()].  A string is a sequence of UTF-16 code units, one character
    of Rocq each, so the code units are those below 256.  The white space
    and line terminators of JavaScript in that range are tab, line feed,
    vertical tab, form feed, carriage return, space and the no-break space
    U+00A0. *)
Definition isWhiteSpace (c : ascii) : bool :=
  let n := Z.of_nat (nat_of_ascii c) in
  ((9 <=? n) && (n <=? 13)) || (n =? 32) || (n =? 160).

Fixpoint trimStart (s : string) : string :=
  match s with
  | EmptyString => EmptyString
  | String c rest => if isWhiteSpace c then trimStart rest else s
  end.

Fixpoint trimEnd (s : string) : string :=
  match s with
  | EmptyString => EmptyString
  | String c rest =>
      match trimEnd rest with
      | EmptyString => if isWhiteSpace c then EmptyString else String c EmptyString
      | t => String c t
      end
  end.

Definition trim (s : string) : string := trimEnd (trimStart s).

(** *** [Number(s)] for a string [s]

    The grammar is that of ECMAScript's StringToNumber: white space around a
    numeric literal; the empty string is [0]; a literal is [0x], [0o] or [0b]
    followed by digits of that base, or an optionally signed [Infinity] or
    decimal literal (digits, optional fraction, optional exponent).  Anything
    else is [NaN].  The mathematical value of the literal is rounded to the
    nearest binary64 value, ties to the even mantissa, as Node does for
    literals of any length. *)

(** The binary64 value nearest to the positive rational [a / b].  With
    [2^e <= a / b < 2^(e+1)], the unit in the last place is [2^p] for
    [p = max (e - 52) (-1074)] (the second bound is that of the subnormal
    values); [a / b] is [(N / D) * 2^p], and [R] is [N / D] rounded to the
    nearest integer, to the even one on a tie.  The result is [R * 2^p], and
    [Infinity] when that reaches [2^1024]. *)
Definition roundPositive (a b : Z) : number :=
  let e1 := Z.log2 a - Z.log2 b in
  let below := if 0 <=? e1 then a <? b * 2 ^ e1 else a * 2 ^ (- e1) <? b in
  let e := if below then e1 - 1 else e1 in
  let p := Z.max (e - 52) (-1074) in
  let N := if 0 <=? p then a else a * 2 ^ (- p) in
  let D := if 0 <=? p then b * 2 ^ p else b in
  let f := N / D in
  let r := N mod D in
  let R := if 2 * r <? D then f
           else if D <? 2 * r then f + 1
           else if Z.even f then f else f + 1 in
  if 1024 <=? e then Infinity false
  else if (p =? 971) && (R =? 2 ^ 53) then Infinity false
  else Finite (Qred (if 0 <=? p then inject_Z (R * 2 ^ p)
                     else Qmake R (Z.to_pos (2 ^ (- p))))).

(** The Number value for a rational. *)
Definition roundBinary64 (q : Q) : number :=
  match Qnum q with
  | 0 => Finite 0
  | Z.pos a => roundPositive (Z.pos a) (Z.pos (Qden q))
  | Z.neg a =>
      match roundPositive (Z.pos a) (Z.pos (Qden q)) with
      | Finite x => Finite (- x)%Q
      | Infinity negative => Infinity (negb negative)
      | NaN => NaN
      end
  end.

Definition digitOf (base : Z) (c : ascii) : option Z :=
  let n := Z.of_nat (nat_of_ascii c) in
  let v := if (48 <=? n) && (n <=? 57) then n - 48
           else if (97 <=? n) && (n <=? 102) then n - 87
           else if (65 <=? n) && (n <=? 70) then n - 55
           else base in
  if v <? base then Some v else None.

(** The longest run of digits at the head of [s]: its value on top of
    [acc], the number of digits read on top of [count], and the rest. *)
Fixpoint digits (base : Z) (s : string) (acc : Z) (count : nat)
  : Z * nat * string :=
  match s with
  | EmptyString => (acc, count, s)
  | String c rest =>
      match digitOf base c with
      | Some d => digits base rest (acc * base + d) (S count)
      | None => (acc, count, s)
      end
  end.

Definition signOf (s : string) : bool * string :=
  match s with
  | String "-" rest => (true, rest)
  | String "+" rest => (false, rest)
  | _ => (false, s)
  end.

(** What follows the mantissa: nothing, or [e] or [E], an optional sign and
    at least one digit, up to the end of the string. *)
Definition exponentPart (s : string) : option Z :=
  match s with
  | EmptyString => Some 0
  | String c rest =>
      if Ascii.eqb c "e" || Ascii.eqb c "E" then
        let (negative, r) := signOf rest in
        let '(v, count, r') := digits 10 r 0 0%nat in
        if (0 <? count)%nat && String.eqb r' "" then
          Some (if negative then - v else v)
        else None
      else None
  end.

Definition pow10 (e : Z) : Q :=
  if 0 <=? e then inject_Z (10 ^ e) else (/ inject_Z (10 ^ (- e)))%Q.

Definition unsignedDecimal (s : string) : option Q :=
  let '(i, ni, r1) := digits 10 s 0 0%nat in
  let '(f, nf, r2) :=
    match r1 with
    | String "." r => digits 10 r 0 0%nat
    | _ => (0, 0%nat, r1)
    end in
  if (ni + nf =? 0)%nat then None
  else
    match exponentPart r2 with
    | Some e =>
        Some (inject_Z (i * 10 ^ Z.of_nat nf + f) * pow10 (e - Z.of_nat nf))%Q
    | None => None
    end.

Definition nonDecimal (s : string) : option Q :=
  match s with
  | String "0" (String p r) =>
      let base :=
        if Ascii.eqb p "x" || Ascii.eqb p "X" then 16
        else if Ascii.eqb p "o" || Ascii.eqb p "O" then 8
        else if Ascii.eqb p "b" || Ascii.eqb p "B" then 2
        else 0 in
      let '(v, count, r') := digits base r 0 0%nat in
      if (0 <? base) && (0 <? count)%nat && String.eqb r' "" then
        Some (inject_Z v)
      else None
  | _ => None
  end.

Definition Number (s : string) : number :=
  let t := trim s in
  if String.eqb t "" then Finite 0
  else
    match nonDecimal t with
    | Some q => roundBinary64 q
    | None =>
        let (negative, r) := signOf t in
        if String.eqb r "Infinity" then Infinity negative
        else
          match unsignedDecimal r with
          | Some q => roundBinary64 (if negative then - q else q)%Q
          | None => NaN
          end
    end.

End JS.

Import JS.

(** ** Errors and completions *)

(** The two messages the program puts in an [InvalidInputError]: the usage
    text of [main] and the text shared by [validateUserInput] and
    [determineWinner]. *)
Inductive message : Type :=
| usageMessage
| chooseValidMoveMessage.

(** [InvalidInputError] is the only error class the program declares;
    [TypeError] is what Node raises when [hmac.update] is given [undefined]. *)
Inductive error : Type :=
| InvalidInputError (m : message)
| TypeError.

(** How a call ends: it returns, it throws, or it never resumes (an [await]
    on a promise that is not resolved). *)
Inductive completion (A : Type) : Type :=
| Return (a : A)
| Throw (e : error)
| Pending.

Arguments Return {A} a.
Arguments Throw {A} e.
Arguments Pending {A}.

(** The three results of a round.  [RPSHelper.determineOutcome] writes them
    ['Draw'], ['Win'], ['Lose']; [GameLogic.determineWinner] writes them
    [It's a draw!], [You won!], [Computer won!].  Both are from the user's
    point of view. *)
Inductive Outcome : Type :=
| Draw
| Win
| Lose.

(** A cell of a row of the help table: the row's label, or an outcome. *)
Inductive cell : Type :=
| Label (move : string)
| Cell (o : Outcome).

(** ** The host: Node's crypto module, [Math.random], the terminal *)

(** [class CryptoProvider] forwards to [node:crypto].  [createHmac a k m]
    stands for [crypto.createHmac(a, k).update(m).digest('hex')], a function
    of its three arguments.  [randomBytes i size] stands for the hexadecimal
    rendering of the bytes returned by the [i]-th call of
    [crypto.randomBytes(size)] in this process (calls are counted from 0). *)
Record CryptoProvider : Type := {
  createHmac : string -> string -> string -> string;
  randomBytes : nat -> nat -> string
}.

(** [Math_random i] is the value of the [i]-th call of [Math.random()]. *)
Record Host : Type := {
  crypto : CryptoProvider;
  Math_random : nat -> Q
}.

(** What changes while the process runs: the lines still to be read from
    standard input and the number of calls made so far to each source of
    randomness. *)
Record World : Type := {
  stdin : list string;
  randomBytesCalls : nat;
  mathRandomCalls : nat
}.

(** A line written to the terminal.  The wording and the colours are left
    out; each constructor names the statement that prints it. *)
Inductive line : Type :=
| Banner
| HmacLine (hmac : string)
| AvailableMoves
| MoveItem (number : Z) (move : string)
| ExitItem
| HelpItem
| Question (question : string)
| HelpMenu
| TableCaption
| TableLine (totalLength : Z)
| TableHeader (moves : list string)
| TableRow (row : list cell)
| Exiting
| YourMove (userMove : value)
| ComputersMove (computerMove : value)
| Result (o : Outcome)
| HmacKeyLine (hmacKey : string)
| ErrorLine (e : error).

(** ** Effects: output, the world, exceptions *)

Record run (A : Type) : Type := {
  output : list line;
  after : World;
  result : completion A
}.

Arguments output {A} r.
Arguments after {A} r.
Arguments result {A} r.

Definition Eff (A : Type) : Type := World -> run A.

Definition ret {A : Type} (a : A) : Eff A :=
  fun w => {| output := []; after := w; result := Return a |}.

Definition throw {A : Type} (e : error) : Eff A :=
  fun w => {| output := []; after := w; result := Throw e |}.

Definition bind {A B : Type} (m : Eff A) (k : A -> Eff B) : Eff B :=
  fun w =>
    let r := m w in
    match result r with
    | Return a =>
        let r' := k a (after r) in
        {| output := output r ++ output r'; after := after r'; result := result r' |}
    | Throw e => {| output := output r; after := after r; result := Throw e |}
    | Pending => {| output := output r; after := after r; result := Pending |}
    end.

Notation "x <- m ;; k" := (bind m (fun x => k))
  (at level 61, m at next level, right associativity).
Notation "m ;; k" := (bind m (fun _ => k))
  (at level 61, right associativity).

(** [try { body } catch (error) { handler(error) }] *)
Definition tryCatch {A : Type} (body : Eff A) (handler : error -> Eff A) : Eff A :=
  fun w =>
    let r := body w in
    match result r with
    | Throw e =>
        let r' := handler e (after r) in
        {| output := output r ++ output r'; after := after r'; result := result r' |}
    | _ => r
    end.

(** [console.log] and [console.error] *)
Definition log (l : line) : Eff unit :=
  fun w => {| output := [l]; after := w; result := Return tt |}.

(** A completion of a pure call, as an effect. *)
Definition lift {A : Type} (c : completion A) : Eff A :=
  fun w => {| output := []; after := w; result := c |}.

Fixpoint forEach {A : Type} (f : A -> Eff unit) (arr : list A) : Eff unit :=
  match arr with
  | [] => ret tt
  | x :: rest => f x ;; forEach f rest
  end.

(** [Math.random()] *)
Definition mathRandom (host : Host) : Eff Q :=
  fun w =>
    {| output := [];
       after := {| stdin := stdin w;
                   randomBytesCalls := randomBytesCalls w;
                   mathRandomCalls := S (mathRandomCalls w) |};
       result := Return (Math_random host (mathRandomCalls w)) |}.

(** ** class RPSHelper (the help table) *)

Module RPSHelper.

(** [determineOutcome(indexA, indexB, n)] *)
Definition determineOutcome (indexA indexB n : Z) : Outcome :=
  let diff := JS.rem (indexB - indexA + n) n in
  if diff =? 0 then Draw
  else if Qle_bool (inject_Z diff) (inject_Z n / 2)%Q then Win
  else Lose.

(** The inner loop of [generateTable]: the cells pushed for [j = 0 .. n-1]. *)
Definition rowCells (i : nat) (n : nat) : list cell :=
  map (fun j => Cell (determineOutcome (Z.of_nat i) (Z.of_nat j) (Z.of_nat n)))
      (seq 0 n).

(** [generateTable(moves)]: row [i] is [moves[i]] followed by the cells. *)
Definition generateTable (moves : list string) : list (list cell) :=
  map (fun im => Label (snd im) :: rowCells (fst im) (List.length moves))
      (combine (seq 0 (List.length moves)) moves).

(** [printTableLine(totalLength)] *)
Definition printTableLine (totalLength : Z) : Eff unit :=
  log (TableLine totalLength).

(** [displayHelpTable(moves)] *)
Definition displayHelpTable (moves : list string) : Eff unit :=
  let table := generateTable moves in
  let totalLength := 15 + JS.length moves * 12 in
  log TableCaption ;;
  printTableLine totalLength ;;
  log (TableHeader moves) ;;
  printTableLine totalLength ;;
  forEach (fun row => log (TableRow row) ;; printTableLine totalLength) table.

End RPSHelper.

(** ** class GameLogic (the resolver) *)

Module GameLogic.

(** [determineWinner(userMove, computerMove)] on [this.moves = moves]. *)
Definition determineWinner (moves : list string) (userMove computerMove : value)
  : completion Outcome :=
  let n := JS.length moves in
  let half := JS.floorDiv n 2 in
  let userIndex := indexOf moves userMove in
  let computerIndex := indexOf moves computerMove in
  if (userIndex =? -1) || (computerIndex =? -1) then
    Throw (InvalidInputError chooseValidMoveMessage)
  else
    let winningMoves :=
      slice moves (computerIndex + 1) (computerIndex + 1 + half)
        ++ slice moves 0 (computerIndex - half) in
    if strictEq userMove computerMove then Return Draw
    else if includes winningMoves userMove then Return Win
    else Return Lose.

End GameLogic.


(** ** class HMACGenerator *)

Module HMACGenerator.

(** An [HMACGenerator] holds its [cryptoProvider] and nothing else. *)
Definition t : Type := CryptoProvider.

(** [generateHMAC(move, hmacKey)].  [hmacHash.update(undefined)] throws. *)
Definition generateHMAC (this : t) (move : value) (hmacKey : string) : Eff string :=
  match move with
  | Str m => ret (createHmac this "sha3-256" hmacKey m)
  | undefined => throw TypeError
  end.

(** [generateKey()] *)
Definition generateKey (this : t) : Eff string :=
  fun w =>
    {| output := [];
       after := {| stdin := stdin w;
                   randomBytesCalls := S (randomBytesCalls w);
                   mathRandomCalls := mathRandomCalls w |};
       result := Return (randomBytes this (randomBytesCalls w) 32) |}.

End HMACGenerator.

(** ** class RPSGame *)

Module RPSGame.

(** A [GameLogic] object holds the array of moves and nothing else. *)
Record t : Type := {
  moves : list string;
  hmacGenerator : HMACGenerator.t;
  gameLogic : list string;
  hmacKey : string
}.

(** [new RPSGame(moves, hmacGenerator, gameLogic)] *)
Definition constructor (moves : list string) (hmacGenerator : HMACGenerator.t)
  (gameLogic : list string) : Eff t :=
  k <- HMACGenerator.generateKey hmacGenerator ;;
  ret {| moves := moves; hmacGenerator := hmacGenerator;
         gameLogic := gameLogic; hmacKey := k |}.

Definition generateHMAC (this : t) (move : value) : Eff string :=
  HMACGenerator.generateHMAC (hmacGenerator this) move (hmacKey this).

Definition determineWinner (this : t) (userMove computerMove : value)
  : completion Outcome :=
  GameLogic.determineWinner (gameLogic this) userMove computerMove.

End RPSGame.

(** ** class GameController *)

Module GameController.

Record t : Type := {
  game : RPSGame.t;
  moves : list string
}.

Definition constructor (game : RPSGame.t) (moves : list string) : t :=
  {| game := game; moves := moves |}.

Definition printGameIntro (hmac : string) : Eff unit :=
  log Banner ;;
  log (HmacLine hmac).

Definition printAvailableMoves (this : t) : Eff unit :=
  log AvailableMoves ;;
  forEach (fun im => log (MoveItem (Z.of_nat (fst im) + 1) (snd im)))
          (combine (seq 0 (List.length (moves this))) (moves this)) ;;
  log ExitItem ;;
  log HelpItem.

(** [promptUser(question)]: the question is written, one line is read and
    trimmed.  At the end of the input the promise is never resolved. *)
Definition promptUser (question : string) : Eff string :=
  fun w =>
    match stdin w with
    | [] => {| output := [Question question]; after := w; result := Pending |}
    | answer :: rest =>
        {| output := [Question question];
           after := {| stdin := rest;
                       randomBytesCalls := randomBytesCalls w;
                       mathRandomCalls := mathRandomCalls w |};
           result := Return (trim answer) |}
    end.

Definition displayHelp (this : t) : Eff unit :=
  log HelpMenu ;;
  RPSHelper.displayHelpTable (moves this).

Definition validateUserInput (this : t) (userMoveIndex : number) : Eff unit :=
  if isNaN userMoveIndex
     || ltb userMoveIndex 0
     || gtb userMoveIndex (inject_Z (JS.length (moves this)))
  then throw (InvalidInputError chooseValidMoveMessage)
  else ret tt.

Definition handleError (e : error) : Eff unit :=
  log (ErrorLine e).

Definition playGame (host : Host) (this : t) : Eff unit :=
  tryCatch
    (r <- mathRandom host ;;
     let computerMove :=
       get (moves this)
           (Finite (inject_Z (Qfloor (r * inject_Z (JS.length (moves this)))))) in
     hmac <- RPSGame.generateHMAC (game this) computerMove ;;
     printGameIntro hmac ;;
     printAvailableMoves this ;;
     userInput <- promptUser "Enter your move: " ;;
     if String.eqb userInput "?" then
       displayHelp this
     else if String.eqb userInput "0" then
       log Exiting
     else
       let userMoveIndex := Number userInput in
       let userMove := get (moves this) (sub userMoveIndex 1) in
       validateUserInput this userMoveIndex ;;
       log (YourMove userMove) ;;
       log (ComputersMove computerMove) ;;
       o <- lift (RPSGame.determineWinner (game this) userMove computerMove) ;;
       log (Result o) ;;
       log (HmacKeyLine (RPSGame.hmacKey (game this))))
    handleError.

End GameController.

(** ** function main *)

(** [main()], with [argv] for [process.argv]. *)
Definition main (host : Host) (argv : list string) : Eff unit :=
  let moves := slice argv 2 (JS.length argv) in
  tryCatch
    (if (JS.length moves <? 3)
        || negb (JS.rem (JS.length moves) 2 =? 1)
        || negb (setSize moves =? JS.length moves)
     then throw (InvalidInputError usageMessage)
     else
       let cryptoProvider := crypto host in
       let hmacGenerator := cryptoProvider in
       let gameLogic := moves in
       game <- RPSGame.constructor moves hmacGenerator gameLogic ;;
       let gameController := GameController.constructor game moves in
       GameController.playGame host gameController)
    (fun e => log (ErrorLine e)).

(** The process starts with nothing drawn from either source of randomness. *)
Definition start (input : list string) : World :=
  {| stdin := input; randomBytesCalls := 0; mathRandomCalls := 0 |}.

Definition rps : list string := ["Rock"; "Paper"; "Scissors"].
Definition rpsls : list string := ["Rock"; "Paper"; "Scissors"; "Lizard"; "Spock"].


(** ** The text of the help table

    [String.prototype.padEnd], [Array.prototype.join] and the template
    strings of [RPSHelper.displayHelpTable] and [printTableLine].  The
    colour escape sequences that chalk wraps around the text are left out:
    the text is what the terminal shows.  The program pads with one
    character ([' '] by default, ['*'] for the separator). *)

(** [s.padEnd(targetLength, fill)] *)
Definition padEnd (s : string) (targetLength : nat) (fill : ascii) : string :=
  (s ++ string_of_list_ascii (repeat fill (targetLength - String.length s)))%string.

(** [arr.join(separator)] *)
Fixpoint join (separator : string) (arr : list string) : string :=
  match arr with
  | [] => ""
  | x :: rest =>
      match rest with
      | [] => x
      | _ :: _ => (x ++ separator ++ join separator rest)%string
      end
  end.

(** The string held by a cell of the table. *)
Definition cellText (c : cell) : string :=
  match c with
  | Label move => move
  | Cell Draw => "Draw"
  | Cell Win => "Win"
  | Cell Lose => "Lose"
  end.

(** The text of the three kinds of lines of the table; [None] for the other
    lines, whose wording is not modelled, and for a row without a first
    cell, on which [row[0].padEnd] throws. *)
Definition lineText (l : line) : option string :=
  match l with
  | TableLine totalLength => Some (padEnd "+" (Z.to_nat totalLength) "*")
  | TableHeader moves =>
      Some ("| " ++ "v PC\User >" ++ "  | "
            ++ join " | " (map (fun move => padEnd move 9 " ") moves)
            ++ "|")%string
  | TableRow (first :: cells) =>
      Some ("| " ++ padEnd (cellText first) 13 " " ++ "| "
            ++ join " | " (map (fun cell => padEnd (cellText cell) 9 " ") cells)
            ++ "|")%string
  | _ => None
  end.

(** ** Vocabulary of the statements *)

(** A valid move set: at least three labels, an odd number of them, no label
    twice. *)
Definition validMoveSet (moves : list string) : Prop :=
  3 <= JS.length moves /\ Z.odd (JS.length moves) = true /\ NoDup moves.

(** The arguments of the process: [node rps.js] and the labels. *)
Definition argvOf (moves : list string) : list string :=
  "node" :: "rps.js" :: moves.

(** [Math.random()] returns a number in [0, 1). *)
Definition validRandom (host : Host) : Prop :=
  forall i : nat, (0 <= Math_random host i)%Q /\ (Math_random host i < 1)%Q.

(** The outcome that the specification's rule gives for the positions of the
    two moves.  This definition follows the specification's words, not the
    code: a draw on equal positions, otherwise the human wins iff
    [(iHuman - iComputer + N) mod N] lies in [[1, floor(N/2)]], and loses in
    the remaining cases. *)
Definition cyclicRule (N iHuman iComputer : Z) : Outcome :=
  if iHuman =? iComputer then Draw
  else
    let d := (iHuman - iComputer + N) mod N in
    if (1 <=? d) && (d <=? N / 2) then Win else Lose.

(** [table[i][j]] *)
Definition entry (table : list (list cell)) (i j : nat) : option cell :=
  match nth_error table i with
  | Some row => nth_error row j
  | None => None
  end.

(** Move [a] beats move [b] under the resolver: the human wins with [a]
    against [b] and loses with [b] against [a]. *)
Definition beats (moves : list string) (a b : string) : Prop :=
  GameLogic.determineWinner moves (Str a) (Str b) = Return Win
  /\ GameLogic.determineWinner moves (Str b) (Str a) = Return Lose.

(** The number denotes one of the moves [1 .. n]. *)
Definition selectsMove (x : number) (n : Z) : bool :=
  match x with
  | Finite q =>
      Qeq_bool (inject_Z (Qfloor q)) q && (1 <=? Qfloor q) && (Qfloor q <=? n)
  | _ => false
  end.

(** The lines printed by [printAvailableMoves]. *)
Definition availableLines (moves : list string) : list line :=
  AvailableMoves
    :: map (fun im => MoveItem (Z.of_nat (fst im) + 1) (snd im))
           (combine (seq 0 (List.length moves)) moves)
    ++ [ExitItem; HelpItem].

(** The lines printed by [displayHelp]. *)
Definition helpLines (moves : list string) : list line :=
  let totalLength := 15 + JS.length moves * 12 in
  [HelpMenu; TableCaption; TableLine totalLength; TableHeader moves;
   TableLine totalLength]
    ++ flat_map (fun row => [TableRow row; TableLine totalLength])
                (RPSHelper.generateTable moves).

(** Everything printed up to the point where the program waits for the
    user's line. *)
Definition shownBeforeInput (hmac : string) (moves : list string) : list line :=
  Banner :: HmacLine hmac :: availableLines moves
    ++ [Question "Enter your move: "].

(** The world after [n] more calls of each kind and with [input] left. *)
Definition worldAfter (w : World) (input : list string) (bytes randoms : nat)
  : World :=
  {| stdin := input;
     randomBytesCalls := (bytes + randomBytesCalls w)%nat;
     mathRandomCalls := (randoms + mathRandomCalls w)%nat |}.

(** What the program prints after it has read the line [userInput]
    (already trimmed), the computer's move being [computerMove]. *)
Definition replyTo (this : GameController.t) (computerMove : value)
  (userInput : string) : list line :=
  let moves := GameController.moves this in
  if String.eqb userInput "?" then helpLines moves
  else if String.eqb userInput "0" then [Exiting]
  else
    let userMoveIndex := Number userInput in
    let userMove := get moves (sub userMoveIndex 1) in
    if isNaN userMoveIndex
       || ltb userMoveIndex 0
       || gtb userMoveIndex (inject_Z (JS.length moves))
    then [ErrorLine (InvalidInputError chooseValidMoveMessage)]
    else
      YourMove userMove :: ComputersMove computerMove
        :: match RPSGame.determineWinner (GameController.game this)
                   userMove computerMove with
           | Return o =>
               [Result o; HmacKeyLine (RPSGame.hmacKey (GameController.game this))]
           | Throw e => [ErrorLine e]
           | Pending => []
           end.

(** The objects that [main] builds for the array [moves] when the key drawn
    is [key]. *)
Definition gameOf (host : Host) (moves : list string) (key : string) : RPSGame.t :=
  {| RPSGame.moves := moves;
     RPSGame.hmacGenerator := crypto host;
     RPSGame.gameLogic := moves;
     RPSGame.hmacKey := key |}.

Definition controllerOf (host : Host) (moves : list string) (key : string)
  : GameController.t :=
  GameController.constructor (gameOf host moves key) moves.

(** The test by which [main] rejects its arguments. *)
Definition rejected (moves : list string) : bool :=
  (JS.length moves <? 3)
  || negb (JS.rem (JS.length moves) 2 =? 1)
  || negb (setSize moves =? JS.length moves).

(** The output shows the program asking for input again after the help: a
    question is printed after the heading of the help menu. *)
Definition asksAgainAfterHelp (out : list line) : Prop :=
  exists (before afterwards : list line) (q : string),
    out = before ++ HelpMenu :: afterwards /\ In (Question q) afterwards.

Definition isHelpMenu (l : line) : bool :=
  match l with HelpMenu => true | _ => false end.

Definition isQuestion (l : line) : bool :=
  match l with Question _ => true | _ => false end.

Definition isKeyLine (l : line) : bool :=
  match l with HmacKeyLine _ => true | _ => false end.

Fixpoint asksAgainAfterHelpb (out : list line) : bool :=
  match out with
  | [] => false
  | l :: rest =>
      (isHelpMenu l && existsb isQuestion rest) || asksAgainAfterHelpb rest
  end.

(** The inputs that the specification's grammar recognises for [N] moves
    (section 6, in the specification's words): the digits ["1"] to ["N"],
    ["0"] and ["?"]. *)
Definition decimal (n : nat) : string :=
  NilEmpty.string_of_uint (Nat.to_uint n).

Definition recognized (N : nat) (input : string) : bool :=
  String.eqb input "?" || String.eqb input "0"
  || existsb (fun i => String.eqb input (decimal i)) (seq 1 N).

(** A host for the examples: the digest is written out as the three
    arguments of the keyed hash, the first key drawn is [6b6579], and
    [Math.random()] returns [0.25]. *)
Definition exampleHost : Host :=
  {| crypto :=
       {| createHmac := fun algorithm key data =>
            (algorithm ++ "/" ++ key ++ "/" ++ data)%string;
          randomBytes := fun i size =>
            if (i =? 0)%nat then "6b6579" else "6f74686572" |};
     Math_random := fun _ => (1 # 4)%Q |}.

(** The cell holds the outcome [o]. *)
Definition cellIs (o : Outcome) (c : cell) : bool :=
  match c, o with
  | Cell Draw, Draw | Cell Win, Win | Cell Lose, Lose => true
  | _, _ => false
  end.

(** How many cells of a row hold the outcome [o]. *)
Definition countOutcome (o : Outcome) (row : list cell) : nat :=
  List.length (filter (cellIs o) row).

Definition isComputersMove (l : line) : bool :=
  match l with ComputersMove _ => true | _ => false end.

(** Every character of the string is white space. *)
Definition allWhiteSpace (s : string) : bool :=
  forallb isWhiteSpace (list_ascii_of_string s).

(** * Properties *)

(** ** Arrays *)

Lemma floorDiv_two (n : Z) : JS.floorDiv n 2 = n / 2.
Proof.
  unfold JS.floorDiv, Qfloor, Qdiv, Qmult, Qinv, inject_Z; simpl.
  now rewrite Z.mul_1_r.
Qed.

Lemma strictEq_Str (s t : string) : strictEq (Str s) (Str t) = String.eqb s t.
Proof. reflexivity. Qed.

Lemma indexOfFrom_nth (arr : list string) :
  forall (i : nat) (s : string) (k : Z),
    NoDup arr -> nth_error arr i = Some s ->
    indexOfFrom arr (Str s) k = k + Z.of_nat i.
Proof.
  induction arr as [|a arr IH]; intros [|i] s k Hnd Hi; simpl in *;
    try discriminate.
  - injection Hi as ->. rewrite String.eqb_refl. lia.
  - inversion Hnd as [|? ? Hnotin Hnd']; subst.
    destruct (String.eqb a s) eqn:E.
    + apply String.eqb_eq in E; subst a.
      exfalso; apply Hnotin. eapply nth_error_In; eassumption.
    + rewrite (IH i s (k + 1) Hnd' Hi). lia.
Qed.

Lemma indexOf_nth (arr : list string) (i : nat) (s : string) :
  NoDup arr -> nth_error arr i = Some s -> indexOf arr (Str s) = Z.of_nat i.
Proof.
  intros Hnd Hi. unfold indexOf. now rewrite (indexOfFrom_nth arr i s 0 Hnd Hi).
Qed.

Lemma indexOfFrom_member (arr : list string) :
  forall (s : string) (k : Z),
    In s arr -> 0 <= k -> 0 <= indexOfFrom arr (Str s) k.
Proof.
  induction arr as [|a arr IH]; intros s k Hin Hk; simpl in *.
  - contradiction.
  - destruct (String.eqb a s) eqn:E; [assumption|].
    destruct Hin as [->|Hin].
    + now rewrite String.eqb_refl in E.
    + apply IH; [assumption | lia].
Qed.

Lemma indexOfFrom_undefined (arr : list string) (k : Z) :
  indexOfFrom arr undefined k = -1.
Proof. revert k; induction arr as [|a arr IH]; intros k; simpl; auto. Qed.

Lemma includes_In (arr : list string) (s : string) :
  includes arr (Str s) = true <-> In s arr.
Proof.
  unfold includes. rewrite existsb_exists. split.
  - intros [x [Hx E]]. rewrite strictEq_Str in E.
    apply String.eqb_eq in E. now subst.
  - intros H. exists s. split; [assumption|].
    rewrite strictEq_Str. apply String.eqb_refl.
Qed.

Lemma In_window (arr : list string) (k m u : nat) (s : string) :
  NoDup arr -> nth_error arr u = Some s ->
  In s (firstn m (skipn k arr)) <-> (k <= u < k + m)%nat.
Proof.
  intros Hnd Hu. rewrite In_iff_nth_error. split.
  - intros [j Hj]. rewrite nth_error_firstn in Hj.
    destruct (Nat.ltb j m) eqn:E; [|discriminate].
    apply Nat.ltb_lt in E. rewrite nth_error_skipn in Hj.
    assert (k + j = u)%nat as <-; [|lia].
    apply (proj1 (NoDup_nth_error arr) Hnd).
    + apply nth_error_Some. congruence.
    + congruence.
  - intros H. exists (u - k)%nat. rewrite nth_error_firstn.
    replace (Nat.ltb (u - k) m) with true
      by (symmetry; apply Nat.ltb_lt; lia).
    rewrite nth_error_skipn. now replace (k + (u - k))%nat with u by lia.
Qed.

(** Which positions a slice keeps. *)
Lemma includes_slice (arr : list string) (start end_ : Z) (u : nat) (s : string) :
  NoDup arr -> nth_error arr u = Some s ->
  let len := JS.length arr in
  let k := if start <? 0 then Z.max (len + start) 0 else Z.min start len in
  let final := if end_ <? 0 then Z.max (len + end_) 0 else Z.min end_ len in
  includes (slice arr start end_) (Str s) = true <-> k <= Z.of_nat u < final.
Proof.
  intros Hnd Hu len k final. rewrite includes_In. unfold slice.
  fold len. fold k. fold final.
  rewrite (In_window arr _ _ u s Hnd Hu).
  assert (0 <= k).
  { unfold k, len, JS.length. destruct (start <? 0) eqn:E; [lia|].
    apply Z.ltb_ge in E. lia. }
  lia.
Qed.

(** What the resolver computes, by positions: a draw on equal positions;
    otherwise the user wins when the user's position [u] is among the
    [half] positions after the computer's position [c], or before
    [c - half] when that bound is not negative, or before
    [n + c - half] when it is negative. *)
Lemma determineWinner_by_index (moves : list string) (u c : nat)
  (userMove computerMove : string) :
  NoDup moves ->
  nth_error moves u = Some userMove ->
  nth_error moves c = Some computerMove ->
  let n := JS.length moves in
  let half := n / 2 in
  let U := Z.of_nat u in
  let C := Z.of_nat c in
  GameLogic.determineWinner moves (Str userMove) (Str computerMove)
  = Return (if U =? C then Draw
            else if ((C <? U) && (U <=? C + half))
                    || ((0 <=? C - half) && (U <? C - half))
                    || ((C - half <? 0) && (U <? n + C - half))
                 then Win else Lose).
Proof.
  intros Hnd Hu Hc n half U C.
  assert (Hun : (u < List.length moves)%nat)
    by (apply nth_error_Some; congruence).
  assert (Hcn : (c < List.length moves)%nat)
    by (apply nth_error_Some; congruence).
  unfold GameLogic.determineWinner.
  rewrite floorDiv_two, (indexOf_nth moves u userMove Hnd Hu),
    (indexOf_nth moves c computerMove Hnd Hc).
  fold n. fold half. fold U. fold C.
  assert (Hhalf : 0 <= half <= n).
  { unfold half, n, JS.length. split.
    - apply Z.div_pos; lia.
    - apply Z.div_le_upper_bound; lia. }
  assert (HU : 0 <= U < n) by (unfold U, n, JS.length; lia).
  assert (HC : 0 <= C < n) by (unfold C, n, JS.length; lia).
  replace ((U =? -1) || (C =? -1)) with false
    by (symmetry; apply orb_false_iff; split; apply Z.eqb_neq; lia).
  rewrite strictEq_Str.
  destruct (U =? C) eqn:EUC.
  - apply Z.eqb_eq in EUC. assert (u = c) by (unfold U, C in EUC; lia). subst c.
    replace computerMove with userMove by congruence.
    now rewrite String.eqb_refl.
  - apply Z.eqb_neq in EUC.
    destruct (String.eqb userMove computerMove) eqn:E.
    + apply String.eqb_eq in E; subst computerMove. exfalso; apply EUC.
      unfold U, C. f_equal.
      apply (proj1 (NoDup_nth_error moves) Hnd); [assumption | congruence].
    + unfold includes. rewrite existsb_app. fold (includes (slice moves (C + 1) (C + 1 + half)) (Str userMove)).
      fold (includes (slice moves 0 (C - half)) (Str userMove)).
      pose proof (includes_slice moves (C + 1) (C + 1 + half) u userMove Hnd Hu) as H1.
      pose proof (includes_slice moves 0 (C - half) u userMove Hnd Hu) as H2.
      cbv zeta in H1, H2. fold n in H1, H2. fold U in H1, H2.
      replace (C + 1 <? 0) with false in H1 by (symmetry; apply Z.ltb_ge; lia).
      replace (C + 1 + half <? 0) with false in H1 by (symmetry; apply Z.ltb_ge; lia).
      replace (0 <? 0) with false in H2 by reflexivity.
      match goal with
      | |- (if ?a then _ else _) = Return (if ?t then _ else _) =>
          assert (a = t) as ->; [|now destruct t]
      end.
      apply eq_true_iff_eq.
      rewrite !orb_true_iff, !andb_true_iff, H1, H2, !Z.ltb_lt, !Z.leb_le.
      destruct (C - half <? 0) eqn:EN;
        [apply Z.ltb_lt in EN | apply Z.ltb_ge in EN]; lia.
Qed.

(** ** The cyclic rule and the two implementations *)

Lemma Qle_half (d n : Z) :
  Qle_bool (inject_Z d) (inject_Z n / 2)%Q = (2 * d <=? n).
Proof.
  apply eq_true_iff_eq. rewrite Qle_bool_iff, Z.leb_le.
  unfold Qle, Qdiv, Qmult, Qinv, inject_Z. cbn -[Z.mul]. lia.
Qed.

(** The help table follows the cyclic rule, with the row as the computer's
    move and the column as the user's. *)
Lemma determineOutcome_cyclicRule (i j n : Z) :
  Z.odd n = true -> 0 <= i < n -> 0 <= j < n ->
  RPSHelper.determineOutcome i j n = cyclicRule n j i.
Proof.
  intros Hodd Hi Hj. unfold RPSHelper.determineOutcome, cyclicRule, JS.rem.
  rewrite Z.rem_mod_nonneg by lia. rewrite Qle_half.
  assert (Hn : n = 2 * (n / 2) + 1).
  { rewrite (Z.div_mod n 2) at 1 by lia. now rewrite Zmod_odd, Hodd. }
  destruct (Z.eq_dec j i) as [->|Hne].
  - replace (i - i + n) with (1 * n) by lia.
    rewrite Z_mod_mult. simpl. now rewrite Z.eqb_refl.
  - replace (j =? i) with false by (symmetry; now apply Z.eqb_neq).
    assert (Hd : 0 <= (j - i + n) mod n < n) by (apply Z.mod_pos_bound; lia).
    destruct ((j - i + n) mod n =? 0) eqn:E0.
    + apply Z.eqb_eq in E0. exfalso.
      destruct (Z_lt_le_dec j i).
      * rewrite Z.mod_small in E0 by lia. lia.
      * replace (j - i + n) with ((j - i) + 1 * n) in E0 by lia.
        rewrite Z_mod_plus_full, Z.mod_small in E0 by lia. lia.
    + apply Z.eqb_neq in E0.
      replace (1 <=? (j - i + n) mod n) with true
        by (symmetry; apply Z.leb_le; lia).
      cbn [andb].
      destruct (2 * ((j - i + n) mod n) <=? n) eqn:E1;
        destruct ((j - i + n) mod n <=? n / 2) eqn:E2; try reflexivity;
        rewrite ?Z.leb_le, ?Z.leb_gt in *; lia.
Qed.

Lemma nth_error_indexed {A : Type} (arr : list A) :
  forall (start i : nat),
    nth_error (combine (seq start (List.length arr)) arr) i
    = option_map (fun x => ((start + i)%nat, x)) (nth_error arr i).
Proof.
  induction arr as [|a arr IH]; intros start [|i]; simpl; try reflexivity.
  - now rewrite Nat.add_0_r.
  - rewrite IH. now replace (S start + i)%nat with (start + S i)%nat by lia.
Qed.

(** Every entry of the help table is the cyclic rule's outcome for the
    column's move as the user's and the row's move as the computer's. *)
Lemma generateTable_entry (moves : list string) (i j : nat) :
  Z.odd (JS.length moves) = true ->
  (i < List.length moves)%nat -> (j < List.length moves)%nat ->
  entry (RPSHelper.generateTable moves) i (S j)
  = Some (Cell (cyclicRule (JS.length moves) (Z.of_nat j) (Z.of_nat i))).
Proof.
  intros Hodd Hi Hj. unfold entry, RPSHelper.generateTable.
  rewrite nth_error_map, nth_error_indexed.
  destruct (nth_error moves i) as [m|] eqn:Em.
  - cbn [option_map fst snd nth_error Nat.add]. unfold RPSHelper.rowCells.
    rewrite nth_error_map, nth_error_seq.
    replace (Nat.ltb j (List.length moves)) with true
      by (symmetry; now apply Nat.ltb_lt).
    cbn [option_map Nat.add]. do 2 f_equal.
    apply determineOutcome_cyclicRule; unfold JS.length in *; auto; lia.
  - apply nth_error_None in Em. lia.
Qed.

(** Where the resolver follows the cyclic rule: everywhere except when the
    user's position is below the computer's and the computer's is below
    [half]. *)
Lemma determineWinner_cyclicRule (moves : list string) (u c : nat)
  (userMove computerMove : string) :
  validMoveSet moves ->
  nth_error moves u = Some userMove ->
  nth_error moves c = Some computerMove ->
  ~ (Z.of_nat u < Z.of_nat c < JS.length moves / 2) ->
  GameLogic.determineWinner moves (Str userMove) (Str computerMove)
  = Return (cyclicRule (JS.length moves) (Z.of_nat u) (Z.of_nat c)).
Proof.
  intros (Hlen & Hodd & Hnd) Hu Hc Hslip.
  rewrite (determineWinner_by_index moves u c _ _ Hnd Hu Hc). cbv zeta.
  assert (Hun : (u < List.length moves)%nat)
    by (apply nth_error_Some; congruence).
  assert (Hcn : (c < List.length moves)%nat)
    by (apply nth_error_Some; congruence).
  set (n := JS.length moves) in *. set (U := Z.of_nat u) in *.
  set (C := Z.of_nat c) in *.
  assert (HU : 0 <= U < n) by (unfold U, n, JS.length; lia).
  assert (HC : 0 <= C < n) by (unfold C, n, JS.length; lia).
  assert (Hn : n = 2 * (n / 2) + 1).
  { rewrite (Z.div_mod n 2) at 1 by lia. now rewrite Zmod_odd, Hodd. }
  unfold cyclicRule. destruct (U =? C) eqn:E; [reflexivity|].
  apply Z.eqb_neq in E. f_equal.
  assert (Hmod : (U - C + n) mod n = if C <? U then U - C else U - C + n).
  { destruct (C <? U) eqn:ECU; [apply Z.ltb_lt in ECU | apply Z.ltb_ge in ECU].
    - replace (U - C + n) with ((U - C) + 1 * n) by lia.
      rewrite Z_mod_plus_full. apply Z.mod_small. lia.
    - apply Z.mod_small. lia. }
  rewrite Hmod.
  match goal with
  | |- (if ?a then _ else _) = (if ?b then _ else _) =>
      assert (a = b) as ->; [|reflexivity]
  end.
  apply eq_true_iff_eq.
  rewrite !orb_true_iff, !andb_true_iff, !Z.ltb_lt, !Z.leb_le.
  destruct (C <? U) eqn:ECU; [apply Z.ltb_lt in ECU | apply Z.ltb_ge in ECU];
    lia.
Qed.

(** The slip: with the user's position below the computer's and the
    computer's below [half], the resolver says the user wins and the cyclic
    rule says the user loses. *)
Lemma determineWinner_slip (moves : list string) (u c : nat)
  (userMove computerMove : string) :
  validMoveSet moves ->
  nth_error moves u = Some userMove ->
  nth_error moves c = Some computerMove ->
  Z.of_nat u < Z.of_nat c < JS.length moves / 2 ->
  GameLogic.determineWinner moves (Str userMove) (Str computerMove) = Return Win
  /\ cyclicRule (JS.length moves) (Z.of_nat u) (Z.of_nat c) = Lose.
Proof.
  intros (Hlen & Hodd & Hnd) Hu Hc Hslip.
  rewrite (determineWinner_by_index moves u c _ _ Hnd Hu Hc). cbv zeta.
  assert (Hcn : (c < List.length moves)%nat)
    by (apply nth_error_Some; congruence).
  set (n := JS.length moves) in *. set (U := Z.of_nat u) in *.
  set (C := Z.of_nat c) in *.
  assert (HU : 0 <= U) by (unfold U; lia).
  assert (HC : C < n) by (unfold C, n, JS.length; lia).
  assert (Hn : n = 2 * (n / 2) + 1).
  { rewrite (Z.div_mod n 2) at 1 by lia. now rewrite Zmod_odd, Hodd. }
  unfold cyclicRule.
  replace (U =? C) with false by (symmetry; apply Z.eqb_neq; lia).
  rewrite (Z.mod_small (U - C + n) n) by lia.
  split.
  - replace (C - n / 2 <? 0) with true by (symmetry; apply Z.ltb_lt; lia).
    replace (U <? n + C - n / 2) with true by (symmetry; apply Z.ltb_lt; lia).
    cbn [andb]. now rewrite !orb_true_r.
  - replace (U - C + n <=? n / 2) with false by (symmetry; apply Z.leb_gt; lia).
    now rewrite andb_false_r.
Qed.

(** ** The resolver on concrete move sets *)

Ltac nodup_strings :=
  repeat (constructor; [simpl; intuition discriminate|]); constructor.

Lemma validMoveSet_rps : validMoveSet rps.
Proof. repeat split; try (intros K; discriminate K). nodup_strings. Qed.

Lemma validMoveSet_rpsls : validMoveSet rpsls.
Proof. repeat split; try (intros K; discriminate K). nodup_strings. Qed.

(** C1.  The claim: on every valid move set the resolver returns Draw on
    equal positions, Win iff [(iHuman - iComputer + N) mod N] is in
    [[1, floor(N/2)]], Lose otherwise.  The code departs from it: on the
    valid move set Rock, Paper, Scissors, Lizard, Spock, with the human on
    Rock (position 0) and the computer on Paper (position 1), the rule gives
    Lose ((0 - 1 + 5) mod 5 = 4 is not in [[1, 2]]) and [determineWinner]
    returns Win. *)
Theorem determineWinner_departs_from_cyclic_rule :
  validMoveSet rpsls
  /\ nth_error rpsls 0 = Some "Rock"
  /\ nth_error rpsls 1 = Some "Paper"
  /\ cyclicRule (JS.length rpsls) 0 1 = Lose
  /\ GameLogic.determineWinner rpsls (Str "Rock") (Str "Paper") = Return Win.
Proof.
  split; [exact validMoveSet_rpsls|]. repeat split; reflexivity.
Qed.

(** C2.  The claim: the help table's entry at row [i], column [j + 1] equals
    the resolver's outcome for the column's move as the human's against the
    row's move as the computer's.  The code departs from it: for Rock, Paper,
    Scissors, Lizard, Spock, row 1 (Paper) and column 0 + 1 (Rock) the table
    holds Lose and [determineWinner] returns Win for the human on Rock
    against the computer on Paper. *)
Theorem help_table_disagrees_with_resolver :
  nth_error rpsls 1 = Some "Paper"
  /\ nth_error rpsls 0 = Some "Rock"
  /\ entry (RPSHelper.generateTable rpsls) 1 (0 + 1) = Some (Cell Lose)
  /\ GameLogic.determineWinner rpsls (Str "Rock") (Str "Paper") = Return Win.
Proof. repeat split; reflexivity. Qed.

(** C3.  The claim: for distinct moves [m1], [m2] the resolver yields Win
    for (human [m1], computer [m2]) iff it yields Lose for (human [m2],
    computer [m1]).  The code departs from it: on Rock, Paper, Scissors,
    Lizard, Spock it yields Win for Rock against Paper and Win, not Lose, for
    Paper against Rock. *)
Theorem determineWinner_not_antisymmetric :
  validMoveSet rpsls
  /\ In "Rock" rpsls /\ In "Paper" rpsls /\ "Rock" <> "Paper"
  /\ GameLogic.determineWinner rpsls (Str "Rock") (Str "Paper") = Return Win
  /\ GameLogic.determineWinner rpsls (Str "Paper") (Str "Rock") = Return Win
  /\ GameLogic.determineWinner rpsls (Str "Paper") (Str "Rock") <> Return Lose.
Proof.
  split; [exact validMoveSet_rpsls|].
  repeat split; try reflexivity; simpl; try tauto; discriminate.
Qed.

(** C4, as stated, fails: with Rock, Paper, Scissors, Lizard, Spock in this
    order, Scissors does not beat Lizard and does not lose to Rock. *)
Lemma rpsls_reference_table_fails :
  ~ (beats rps "Paper" "Rock" /\ beats rps "Rock" "Scissors"
     /\ beats rpsls "Scissors" "Lizard" /\ beats rpsls "Scissors" "Paper"
     /\ beats rpsls "Rock" "Scissors" /\ beats rpsls "Spock" "Scissors"
     /\ GameLogic.determineWinner rpsls (Str "Scissors") (Str "Paper")
        = Return Win).
Proof.
  intros (_ & _ & [K _] & _). vm_compute in K. discriminate K.
Qed.

(** C4, amended.  For Rock, Paper, Scissors the resolver gives the classical
    rules: Rock loses to Paper and beats Scissors.  For Rock, Paper,
    Scissors, Lizard, Spock in this order, Scissors beats Paper and Rock and
    loses to Lizard and Spock; the human on Scissors against the computer on
    Paper wins. *)
Theorem resolver_reference_tables :
  beats rps "Paper" "Rock" /\ beats rps "Rock" "Scissors"
  /\ beats rpsls "Scissors" "Paper" /\ beats rpsls "Scissors" "Rock"
  /\ beats rpsls "Lizard" "Scissors" /\ beats rpsls "Spock" "Scissors"
  /\ GameLogic.determineWinner rpsls (Str "Scissors") (Str "Paper") = Return Win.
Proof. unfold beats. repeat split; reflexivity. Qed.

(** The order that the program's usage text gives for these five labels
    does produce the rules of the claim: Scissors beats Lizard and Paper and
    loses to Rock and Spock. *)
Example usage_order_gives_claimed_rules :
  let moves := ["rock"; "spock"; "paper"; "lizard"; "scissors"] in
  beats moves "scissors" "lizard" /\ beats moves "scissors" "paper"
  /\ beats moves "rock" "scissors" /\ beats moves "spock" "scissors".
Proof. unfold beats. repeat split; reflexivity. Qed.

(** C6.  For member moves the resolver returns one of the three outcomes
    (it does not throw), and a move against itself is a draw.  This holds
    for every array of moves, valid or not. *)
Theorem determineWinner_total_and_reflexive_draw
  (moves : list string) (human computer : string) :
  In human moves -> In computer moves ->
  (exists o : Outcome,
      GameLogic.determineWinner moves (Str human) (Str computer) = Return o
      /\ (o = Draw \/ o = Win \/ o = Lose))
  /\ GameLogic.determineWinner moves (Str human) (Str human) = Return Draw.
Proof.
  intros Hh Hc.
  pose proof (indexOfFrom_member moves human 0 Hh (Z.le_refl 0)) as Ih.
  pose proof (indexOfFrom_member moves computer 0 Hc (Z.le_refl 0)) as Ic.
  unfold GameLogic.determineWinner, indexOf.
  replace (indexOfFrom moves (Str human) 0 =? -1) with false
    by (symmetry; apply Z.eqb_neq; lia).
  replace (indexOfFrom moves (Str computer) 0 =? -1) with false
    by (symmetry; apply Z.eqb_neq; lia).
  cbn [orb]. split.
  - destruct (strictEq (Str human) (Str computer)); [eauto|].
    match goal with |- context [if ?b then _ else _] => destruct b end; eauto 6.
  - now rewrite strictEq_Str, String.eqb_refl.
Qed.

Lemma determineWinner_total_and_reflexive_draw_witness :
  (exists o : Outcome,
      GameLogic.determineWinner rpsls (Str "Spock") (Str "Rock") = Return o
      /\ (o = Draw \/ o = Win \/ o = Lose))
  /\ GameLogic.determineWinner rpsls (Str "Spock") (Str "Spock") = Return Draw.
Proof.
  apply (determineWinner_total_and_reflexive_draw rpsls "Spock" "Rock");
    simpl; tauto.
Defined.

(** ** The session *)

Lemma forEach_prints {A : Type} (f : A -> Eff unit) (F : A -> list line)
  (arr : list A) :
  (forall x w, f x w = {| output := F x; after := w; result := Return tt |}) ->
  forall w,
    forEach f arr w
    = {| output := flat_map F arr; after := w; result := Return tt |}.
Proof.
  intros Hf. induction arr as [|a arr IH]; intros w; [reflexivity|].
  cbn [forEach flat_map]. unfold bind. rewrite Hf.
  cbn [result output after]. rewrite IH. reflexivity.
Qed.

Lemma forEach_log {A : Type} (f : A -> line) (arr : list A) (w : World) :
  forEach (fun x => log (f x)) arr w
  = {| output := map f arr; after := w; result := Return tt |}.
Proof.
  rewrite (forEach_prints _ (fun x => [f x])); reflexivity.
Qed.

Lemma forEach_log2 {A : Type} (f g : A -> line) (arr : list A) (w : World) :
  forEach (fun x => log (f x) ;; log (g x)) arr w
  = {| output := flat_map (fun x => [f x; g x]) arr; after := w;
       result := Return tt |}.
Proof. now rewrite (forEach_prints _ (fun x => [f x; g x])). Qed.

Lemma printAvailableMoves_run (this : GameController.t) (w : World) :
  GameController.printAvailableMoves this w
  = {| output := availableLines (GameController.moves this); after := w;
       result := Return tt |}.
Proof.
  unfold GameController.printAvailableMoves, availableLines, bind.
  cbn [log result output after]. rewrite forEach_log. reflexivity.
Qed.

Lemma displayHelp_run (this : GameController.t) (w : World) :
  GameController.displayHelp this w
  = {| output := helpLines (GameController.moves this); after := w;
       result := Return tt |}.
Proof.
  unfold GameController.displayHelp, RPSHelper.displayHelpTable, helpLines,
    RPSHelper.printTableLine.
  unfold bind at 1 2 3 4 5. cbn [log result output after].
  rewrite forEach_log2. reflexivity.
Qed.

Lemma determineWinner_not_pending (moves : list string) (a b : value) :
  GameLogic.determineWinner moves a b <> Pending.
Proof.
  unfold GameLogic.determineWinner.
  repeat match goal with |- context [if ?b then _ else _] => destruct b end;
    discriminate.
Qed.

Lemma bind_Return {A B : Type} (m : Eff A) (k : A -> Eff B) (w w' : World)
  (o : list line) (a : A) :
  m w = {| output := o; after := w'; result := Return a |} ->
  bind m k w
  = {| output := o ++ output (k a w'); after := after (k a w');
       result := result (k a w') |}.
Proof. intros H. unfold bind. now rewrite H. Qed.

Lemma bind_Throw {A B : Type} (m : Eff A) (k : A -> Eff B) (w w' : World)
  (o : list line) (e : error) :
  m w = {| output := o; after := w'; result := Throw e |} ->
  bind m k w = {| output := o; after := w'; result := Throw e |}.
Proof. intros H. unfold bind. now rewrite H. Qed.

Lemma bind_Pending {A B : Type} (m : Eff A) (k : A -> Eff B) (w w' : World)
  (o : list line) :
  m w = {| output := o; after := w'; result := Pending |} ->
  bind m k w = {| output := o; after := w'; result := Pending |}.
Proof. intros H. unfold bind. now rewrite H. Qed.

Lemma tryCatch_Return {A : Type} (body : Eff A) (handler : error -> Eff A)
  (w w' : World) (o : list line) (a : A) :
  body w = {| output := o; after := w'; result := Return a |} ->
  tryCatch body handler w = {| output := o; after := w'; result := Return a |}.
Proof. intros H. unfold tryCatch. now rewrite H. Qed.

Lemma tryCatch_Pending {A : Type} (body : Eff A) (handler : error -> Eff A)
  (w w' : World) (o : list line) :
  body w = {| output := o; after := w'; result := Pending |} ->
  tryCatch body handler w = {| output := o; after := w'; result := Pending |}.
Proof. intros H. unfold tryCatch. now rewrite H. Qed.

Lemma tryCatch_Throw {A : Type} (body : Eff A) (handler : error -> Eff A)
  (w w' : World) (o : list line) (e : error) :
  body w = {| output := o; after := w'; result := Throw e |} ->
  tryCatch body handler w
  = {| output := o ++ output (handler e w'); after := after (handler e w');
       result := result (handler e w') |}.
Proof. intros H. unfold tryCatch. now rewrite H. Qed.

(** One statement of a sequence has run and returned. *)
Ltac ran H :=
  erewrite bind_Return by H; cbv beta;
  cbn [output after result log ret app stdin randomBytesCalls mathRandomCalls].

(** The run of [playGame], path by path. *)
Lemma playGame_run (host : Host) (this : GameController.t) (w : World) :
  let moves := GameController.moves this in
  let game := GameController.game this in
  let r := Math_random host (mathRandomCalls w) in
  let computerMove :=
    get moves (Finite (inject_Z (Qfloor (r * inject_Z (JS.length moves))))) in
  GameController.playGame host this w
  = match computerMove with
    | undefined =>
        {| output := [ErrorLine TypeError];
           after := worldAfter w (stdin w) 0 1;
           result := Return tt |}
    | Str m =>
        let hmac :=
          createHmac (RPSGame.hmacGenerator game) "sha3-256"
                     (RPSGame.hmacKey game) m in
        match stdin w with
        | [] =>
            {| output := shownBeforeInput hmac moves;
               after := worldAfter w [] 0 1;
               result := Pending |}
        | answer :: rest =>
            {| output := shownBeforeInput hmac moves
                           ++ replyTo this computerMove (trim answer);
               after := worldAfter w rest 0 1;
               result := Return tt |}
        end
    end.
Proof.
  intros moves game r computerMove.
  unfold GameController.playGame.
  assert (Hrandom : mathRandom host w
    = {| output := []; after := worldAfter w (stdin w) 0 1; result := Return r |})
    by reflexivity.
  destruct computerMove as [|m] eqn:Ec.
  { erewrite tryCatch_Throw.
    2:{ ran ltac:(exact Hrandom). fold moves. fold r. fold computerMove.
        rewrite Ec. erewrite bind_Throw by reflexivity. reflexivity. }
    reflexivity. }
  cbv zeta.
  assert (Hshown : forall (k : Q -> string -> Eff unit),
    (x <- mathRandom host ;;
     hmac <- RPSGame.generateHMAC (GameController.game this)
       (get (GameController.moves this)
          (Finite (inject_Z (Qfloor (x * inject_Z (JS.length (GameController.moves this)))))));;
     GameController.printGameIntro hmac ;;
     GameController.printAvailableMoves this ;;
     userInput <- GameController.promptUser "Enter your move: " ;;
     k x userInput) w
    = match stdin w with
      | [] =>
          {| output := shownBeforeInput
               (createHmac (RPSGame.hmacGenerator game) "sha3-256"
                           (RPSGame.hmacKey game) m) moves;
             after := worldAfter w [] 0 1; result := Pending |}
      | answer :: rest =>
          let r' := k r (trim answer) (worldAfter w rest 0 1) in
          {| output := shownBeforeInput
               (createHmac (RPSGame.hmacGenerator game) "sha3-256"
                           (RPSGame.hmacKey game) m) moves ++ output r';
             after := after r'; result := result r' |}
      end).
  { intros k. ran ltac:(exact Hrandom). fold moves. fold r. fold computerMove.
    rewrite Ec. ran ltac:(reflexivity).
    unfold GameController.printGameIntro.
    ran ltac:(ran ltac:(reflexivity); reflexivity).
    ran ltac:(apply printAvailableMoves_run).
    fold moves. fold game. unfold shownBeforeInput.
    destruct (stdin w) as [|answer rest] eqn:Ein.
    - erewrite bind_Pending
        by (unfold GameController.promptUser; cbn [stdin]; reflexivity).
      reflexivity.
    - ran ltac:(unfold GameController.promptUser; cbn [stdin]; reflexivity).
      cbv zeta. cbn [app]. rewrite <- !app_assoc. reflexivity. }
  destruct (stdin w) as [|answer rest] eqn:Ein.
  { erewrite tryCatch_Pending by (etransitivity; [apply Hshown|]; reflexivity). reflexivity. }
  unfold replyTo. fold moves. fold game.
  destruct (String.eqb (trim answer) "?") eqn:Ehelp.
  { erewrite tryCatch_Return
      by (etransitivity; [apply Hshown|]; cbv beta zeta; rewrite Ehelp, displayHelp_run; reflexivity).
    reflexivity. }
  destruct (String.eqb (trim answer) "0") eqn:Eexit.
  { erewrite tryCatch_Return
      by (etransitivity; [apply Hshown|]; cbv beta zeta; rewrite Ehelp, Eexit; reflexivity).
    reflexivity. }
  destruct (isNaN (Number (trim answer))
            || ltb (Number (trim answer)) 0
            || gtb (Number (trim answer)) (inject_Z (JS.length moves)))
    eqn:Egate.
  { erewrite tryCatch_Throw.
    2:{ etransitivity; [apply Hshown|]. cbv beta zeta. rewrite Ehelp, Eexit.
        erewrite bind_Throw
          by (unfold GameController.validateUserInput; fold moves;
              rewrite Egate; reflexivity).
        reflexivity. }
    unfold GameController.handleError. cbn [log output after result].
    rewrite <- app_assoc. reflexivity. }
  pose proof (determineWinner_not_pending (RPSGame.gameLogic game)
    (get moves (sub (Number (trim answer)) 1)) (Str m)) as Hnp.
  unfold RPSGame.determineWinner.
  destruct (GameLogic.determineWinner (RPSGame.gameLogic game)
              (get moves (sub (Number (trim answer)) 1)) (Str m))
    as [o|e|] eqn:Eres; [| |congruence].
  { erewrite tryCatch_Return.
    2:{ etransitivity; [apply Hshown|]. cbv beta zeta. rewrite Ehelp, Eexit.
        ran ltac:(unfold GameController.validateUserInput; fold moves;
                  rewrite Egate; reflexivity).
        ran ltac:(reflexivity). ran ltac:(reflexivity).
        unfold RPSGame.determineWinner. fold moves. fold game.
        fold r. fold computerMove. rewrite Ec, Eres.
        ran ltac:(reflexivity). ran ltac:(reflexivity).
        reflexivity. }
    reflexivity. }
  { erewrite tryCatch_Throw.
    2:{ etransitivity; [apply Hshown|]. cbv beta zeta. rewrite Ehelp, Eexit.
        ran ltac:(unfold GameController.validateUserInput; fold moves;
                  rewrite Egate; reflexivity).
        ran ltac:(reflexivity). ran ltac:(reflexivity).
        unfold RPSGame.determineWinner. fold moves. fold game.
        fold r. fold computerMove. rewrite Ec, Eres.
        erewrite bind_Throw by reflexivity. reflexivity. }
    unfold GameController.handleError. cbn [log output after result].
    rewrite <- !app_assoc. reflexivity. }
Qed.

(** ** [main] *)

Lemma slice_argv (moves : list string) :
  slice (argvOf moves) 2 (JS.length (argvOf moves)) = moves.
Proof.
  unfold slice, argvOf, JS.length. cbn [List.length].
  replace (2 <? 0) with false by reflexivity.
  destruct (Z.of_nat (S (S (List.length moves))) <? 0) eqn:E;
    [apply Z.ltb_lt in E; lia|].
  rewrite Z.min_id, Z.min_l by lia.
  replace (Z.to_nat 2) with 2%nat by reflexivity. cbn [skipn].
  replace (Z.to_nat (Z.of_nat (S (S (List.length moves))) - 2))
    with (List.length moves) by lia.
  apply firstn_all.
Qed.

Lemma nodup_length_le (arr : list string) :
  (List.length (nodup string_dec arr) <= List.length arr)%nat.
Proof.
  induction arr as [|a arr IH]; simpl; [lia|].
  destruct (in_dec string_dec a arr); simpl; lia.
Qed.

Lemma setSize_NoDup (arr : list string) :
  setSize arr = JS.length arr <-> NoDup arr.
Proof.
  unfold setSize, JS.length. split.
  - intros H. apply Nat2Z.inj in H.
    induction arr as [|a arr IH]; [constructor|].
    simpl in H. pose proof (nodup_length_le arr).
    destruct (in_dec string_dec a arr) as [Hin|Hnotin]; simpl in H; [lia|].
    constructor; [assumption|]. apply IH. lia.
  - intros H. now rewrite nodup_fixed_point.
Qed.

Lemma rem_two_odd (n : Z) : 0 <= n -> (JS.rem n 2 =? 1) = Z.odd n.
Proof.
  intros Hn. unfold JS.rem. rewrite Z.rem_mod_nonneg by lia.
  rewrite Zmod_odd. now destruct (Z.odd n).
Qed.

Lemma rejected_false (moves : list string) :
  rejected moves = false <-> validMoveSet moves.
Proof.
  unfold rejected, validMoveSet.
  rewrite rem_two_odd by (unfold JS.length; lia).
  rewrite !orb_false_iff, !negb_false_iff, Z.ltb_ge, Z.eqb_eq, setSize_NoDup.
  tauto.
Qed.

Lemma main_rejects (host : Host) (moves : list string) (w : World) :
  rejected moves = true ->
  main host (argvOf moves) w
  = {| output := [ErrorLine (InvalidInputError usageMessage)]; after := w;
       result := Return tt |}.
Proof.
  intros H. unfold main. rewrite slice_argv. fold (rejected moves). rewrite H.
  reflexivity.
Qed.

Lemma playGame_does_not_throw (host : Host) (this : GameController.t)
  (w : World) (e : error) :
  result (GameController.playGame host this w) <> Throw e.
Proof.
  rewrite playGame_run. cbv zeta.
  destruct (get _ _); [discriminate|].
  destruct (stdin w); discriminate.
Qed.

Lemma main_accepts (host : Host) (moves : list string) (w : World) :
  rejected moves = false ->
  main host (argvOf moves) w
  = GameController.playGame host
      (controllerOf host moves
         (randomBytes (crypto host) (randomBytesCalls w) 32))
      (worldAfter w (stdin w) 1 0).
Proof.
  intros H. unfold main. rewrite slice_argv. fold (rejected moves). rewrite H.
  cbv zeta. unfold tryCatch.
  erewrite bind_Return by reflexivity.
  fold (gameOf host moves (randomBytes (crypto host) (randomBytesCalls w) 32)).
  fold (controllerOf host moves
          (randomBytes (crypto host) (randomBytesCalls w) 32)).
  cbn [result output after app].
  pose proof (playGame_does_not_throw host
    (controllerOf host moves (randomBytes (crypto host) (randomBytesCalls w) 32))
    (worldAfter w (stdin w) 1 0)) as Hnt.
  unfold worldAfter in *. cbn [Nat.add] in *.
  destruct (GameController.playGame _ _ _) as [o w' [a|e|]]; cbn in *;
    [reflexivity | exfalso; now apply (Hnt e) | reflexivity].
Qed.

(** The computer's move is a member of the move set. *)
Lemma computerMove_member (moves : list string) (r : Q) :
  (0 <= r)%Q -> (r < 1)%Q -> (0 < List.length moves)%nat ->
  exists (i : nat) (m : string),
    get moves (Finite (inject_Z (Qfloor (r * inject_Z (JS.length moves)))))
    = Str m
    /\ nth_error moves i = Some m.
Proof.
  intros H0 H1 Hlen.
  set (n := JS.length moves).
  assert (Hn : 0 < n) by (unfold n, JS.length; lia).
  assert (Hfloor : 0 <= Qfloor (r * inject_Z n) < n).
  { split.
    - rewrite <- (Qfloor_Z 0). apply Qfloor_resp_le.
      apply Qmult_le_0_compat; [assumption|].
      change 0%Q with (inject_Z 0). rewrite <- Zle_Qle. lia.
    - assert (Hlt : (r * inject_Z n < inject_Z n)%Q).
      { rewrite <- (Qmult_1_l (inject_Z n)) at 2.
        apply Qmult_lt_compat_r; [|assumption].
        change 0%Q with (inject_Z 0). rewrite <- Zlt_Qlt. lia. }
      pose proof (Qfloor_le (r * inject_Z n)) as Hle.
      rewrite Zlt_Qlt. eapply Qle_lt_trans; eassumption. }
  set (z := Qfloor (r * inject_Z n)) in *.
  unfold get. rewrite Qfloor_Z, Qeq_bool_refl.
  replace (0 <=? z) with true by (symmetry; apply Z.leb_le; lia).
  cbn [andb].
  destruct (nth_error moves (Z.to_nat z)) as [m|] eqn:E.
  - exists (Z.to_nat z), m. split; [reflexivity | assumption].
  - apply nth_error_None in E. unfold n, JS.length in Hfloor. lia.
Qed.

(** ** What the lines printed before the reply contain *)

Lemma existsb_map_false {A B : Type} (f : B -> bool) (g : A -> B) (arr : list A) :
  (forall x, f (g x) = false) -> existsb f (map g arr) = false.
Proof.
  intros H. induction arr as [|a arr IH]; [reflexivity|].
  cbn [map existsb]. now rewrite H, IH.
Qed.

Lemma existsb_flat_map_false {A B : Type} (f : B -> bool) (g : A -> list B)
  (arr : list A) :
  (forall x, existsb f (g x) = false) -> existsb f (flat_map g arr) = false.
Proof.
  intros H. induction arr as [|a arr IH]; [reflexivity|].
  cbn [flat_map]. now rewrite existsb_app, H, IH.
Qed.

Ltac scan_lines :=
  repeat first
    [ rewrite existsb_app
    | rewrite existsb_map_false by reflexivity
    | rewrite existsb_flat_map_false by reflexivity
    | progress cbn [existsb orb app isKeyLine isHelpMenu isQuestion] ];
  reflexivity.

Lemma no_key_line (out : list line) (k : string) :
  existsb isKeyLine out = false -> ~ In (HmacKeyLine k) out.
Proof.
  intros H Hin.
  assert (existsb isKeyLine out = true) as K
    by (apply existsb_exists; now exists (HmacKeyLine k)).
  congruence.
Qed.

Lemma shownBeforeInput_no_key (hmac : string) (moves : list string) (k : string) :
  ~ In (HmacKeyLine k) (shownBeforeInput hmac moves).
Proof.
  apply no_key_line. unfold shownBeforeInput, availableLines. scan_lines.
Qed.

Lemma helpLines_no_key (moves : list string) (k : string) :
  ~ In (HmacKeyLine k) (helpLines moves).
Proof.
  apply no_key_line. unfold helpLines. cbv zeta. scan_lines.
Qed.

Lemma asksAgainAfterHelp_b (out : list line) :
  asksAgainAfterHelp out -> asksAgainAfterHelpb out = true.
Proof.
  intros (before & afterwards & q & -> & Hq).
  induction before as [|b before IH]; cbn [app asksAgainAfterHelpb].
  - cbn [isHelpMenu andb]. apply orb_true_iff. left.
    apply existsb_exists. now exists (Question q).
  - rewrite IH. apply orb_true_r.
Qed.

Lemma asksAgainAfterHelpb_no_help (l1 l2 : list line) :
  existsb isHelpMenu l1 = false ->
  asksAgainAfterHelpb (l1 ++ l2) = asksAgainAfterHelpb l2.
Proof.
  induction l1 as [|a l1 IH]; [reflexivity|].
  cbn [existsb app asksAgainAfterHelpb]. intros H.
  apply orb_false_iff in H. destruct H as [Ha H].
  now rewrite Ha, IH.
Qed.

Lemma asksAgainAfterHelpb_no_question (l : list line) :
  existsb isQuestion l = false -> asksAgainAfterHelpb l = false.
Proof.
  induction l as [|a l IH]; [reflexivity|].
  cbn [existsb asksAgainAfterHelpb]. intros H.
  apply orb_false_iff in H. destruct H as [Ha H].
  now rewrite H, IH, andb_false_r.
Qed.

Lemma shownBeforeInput_no_help (hmac : string) (moves : list string) :
  existsb isHelpMenu (shownBeforeInput hmac moves) = false.
Proof.
  unfold shownBeforeInput, availableLines. scan_lines.
Qed.

Lemma helpLines_no_question (moves : list string) :
  existsb isQuestion (helpLines moves) = false.
Proof.
  unfold helpLines. cbv zeta. scan_lines.
Qed.

Lemma help_session_does_not_ask_again (hmac : string) (moves : list string) :
  ~ asksAgainAfterHelp (shownBeforeInput hmac moves ++ helpLines moves).
Proof.
  intros H. apply asksAgainAfterHelp_b in H.
  rewrite asksAgainAfterHelpb_no_help in H by apply shownBeforeInput_no_help.
  rewrite asksAgainAfterHelpb_no_question in H by apply helpLines_no_question.
  discriminate H.
Qed.

(** ** Sessions *)

(** A session on a valid move set in which a line is read. *)
Lemma session_run (host : Host) (moves : list string) (answer : string)
  (rest : list string) :
  validMoveSet moves -> validRandom host ->
  let key := randomBytes (crypto host) 0 32 in
  exists (i : nat) (m : string),
    nth_error moves i = Some m
    /\ main host (argvOf moves) (start (answer :: rest))
       = {| output :=
              shownBeforeInput (createHmac (crypto host) "sha3-256" key m) moves
                ++ replyTo (controllerOf host moves key) (Str m) (trim answer);
            after := {| stdin := rest; randomBytesCalls := 1;
                        mathRandomCalls := 1 |};
            result := Return tt |}.
Proof.
  intros Hvalid Hrandom key.
  pose proof (proj2 (rejected_false moves) Hvalid) as Hacc.
  destruct Hvalid as (Hlen & _ & _).
  destruct (Hrandom 0%nat) as [H0 H1].
  destruct (computerMove_member moves (Math_random host 0) H0 H1) as (i & m & Hget & Hi);
    [unfold JS.length in Hlen; lia|].
  exists i, m. split; [assumption|].
  rewrite (main_accepts host moves _ Hacc), playGame_run. cbv zeta.
  cbn [start stdin randomBytesCalls mathRandomCalls worldAfter Nat.add
       controllerOf GameController.constructor GameController.moves
       GameController.game gameOf RPSGame.hmacGenerator RPSGame.hmacKey].
  rewrite Hget. reflexivity.
Qed.

(** C5.  Whenever a session reveals a key [k], that key is the one drawn by
    the single call of [randomBytes] made in the session, and the digest
    printed before the question, hence before the human's line is read, is
    [createHmac('sha3-256', k, m)] for the computer's move [m] that the
    session announces.  Recomputing the HMAC from the revealed key and the
    announced move gives the digest shown. *)
Theorem commitment_matches_revealed_key (host : Host) (moves input : list string)
  (k : string) :
  In (HmacKeyLine k) (output (main host (argvOf moves) (start input))) ->
  k = randomBytes (crypto host) 0 32
  /\ randomBytesCalls (after (main host (argvOf moves) (start input))) = 1%nat
  /\ exists (m : string) (userMove : value) (o : Outcome),
       output (main host (argvOf moves) (start input))
       = shownBeforeInput (createHmac (crypto host) "sha3-256" k m) moves
           ++ [YourMove userMove; ComputersMove (Str m); Result o;
               HmacKeyLine k].
Proof.
  destruct (rejected moves) eqn:Erej.
  { rewrite (main_rejects host moves _ Erej). cbn [output In].
    intros [H|[]]; discriminate H. }
  rewrite (main_accepts host moves _ Erej), playGame_run. cbv zeta.
  cbn [start stdin randomBytesCalls mathRandomCalls worldAfter Nat.add
       controllerOf GameController.constructor GameController.moves
       GameController.game gameOf RPSGame.hmacGenerator RPSGame.hmacKey].
  destruct (get moves _) as [|m].
  { cbn [output In]. intros [H|[]]; discriminate H. }
  destruct input as [|answer rest].
  { cbn [output]. intros H. now apply shownBeforeInput_no_key in H. }
  cbn [output after randomBytesCalls]. rewrite in_app_iff.
  intros [H|H]; [now apply shownBeforeInput_no_key in H|].
  unfold replyTo, RPSGame.determineWinner in *.
  cbn [controllerOf GameController.constructor gameOf GameController.moves
       GameController.game RPSGame.hmacKey RPSGame.gameLogic] in *.
  destruct (String.eqb (trim answer) "?");
    [now apply helpLines_no_key in H|].
  destruct (String.eqb (trim answer) "0");
    [destruct H as [H|[]]; discriminate H|].
  destruct (isNaN _ || ltb _ 0 || gtb _ _);
    [destruct H as [H|[]]; discriminate H|].
  destruct (GameLogic.determineWinner moves _ (Str m)) as [o|e|].
  - destruct H as [H|[H|[H|[H|[]]]]]; try discriminate H.
    injection H as <-. split; [reflexivity|]. split; [reflexivity|].
    eexists m, _, o. reflexivity.
  - destruct H as [H|[H|[H|[]]]]; discriminate H.
  - destruct H as [H|[H|[]]]; discriminate H.
Qed.

Lemma commitment_matches_revealed_key_witness :
  "6b6579" = randomBytes (crypto exampleHost) 0 32
  /\ randomBytesCalls (after (main exampleHost (argvOf rpsls) (start ["3"]))) = 1%nat
  /\ exists (m : string) (userMove : value) (o : Outcome),
       output (main exampleHost (argvOf rpsls) (start ["3"]))
       = shownBeforeInput
           (createHmac (crypto exampleHost) "sha3-256" "6b6579" m) rpsls
           ++ [YourMove userMove; ComputersMove (Str m); Result o;
               HmacKeyLine "6b6579"].
Proof.
  apply (commitment_matches_revealed_key exampleHost rpsls ["3"] "6b6579").
  vm_compute. tauto.
Defined.

(** C7, as stated, fails: after the help table the session does not ask
    for input again.  With Rock, Paper, Scissors and the lines [?] and [1] on
    standard input, no question follows the help, the session has ended and
    the line [1] is never read. *)
Lemma help_does_not_return_to_prompt :
  let session := main exampleHost (argvOf rps) (start ["?"; "1"]) in
  ~ asksAgainAfterHelp (output session)
  /\ result session = Return tt
  /\ stdin (after session) = ["1"].
Proof.
  cbv zeta. split; [|split; reflexivity].
  intros H. apply asksAgainAfterHelp_b in H. vm_compute in H. discriminate H.
Qed.

(** C7, amended.  When the human enters [?] the session prints the help
    table after the commitment and ends: no further question is asked and
    the remaining input is not read.  Nothing is regenerated: in the whole
    session one key and one computer's move are drawn, and the key is not
    revealed. *)
Theorem help_ends_the_session (host : Host) (moves : list string)
  (answer : string) (rest : list string) :
  validMoveSet moves -> validRandom host -> trim answer = "?" ->
  exists (m : string),
    In m moves
    /\ output (main host (argvOf moves) (start (answer :: rest)))
       = shownBeforeInput
           (createHmac (crypto host) "sha3-256"
                       (randomBytes (crypto host) 0 32) m) moves
           ++ helpLines moves
    /\ result (main host (argvOf moves) (start (answer :: rest))) = Return tt
    /\ after (main host (argvOf moves) (start (answer :: rest)))
       = {| stdin := rest; randomBytesCalls := 1; mathRandomCalls := 1 |}
    /\ ~ asksAgainAfterHelp
           (output (main host (argvOf moves) (start (answer :: rest))))
    /\ forall k : string,
         ~ In (HmacKeyLine k)
              (output (main host (argvOf moves) (start (answer :: rest)))).
Proof.
  intros Hvalid Hrandom Hhelp.
  destruct (session_run host moves answer rest Hvalid Hrandom)
    as (i & m & Hi & ->).
  exists m. unfold replyTo. rewrite Hhelp. cbn [String.eqb output after result].
  replace (String.eqb "?" "?") with true by reflexivity.
  cbn [controllerOf GameController.constructor GameController.moves].
  split; [eapply nth_error_In; eassumption|].
  split; [reflexivity|]. split; [reflexivity|]. split; [reflexivity|].
  split; [apply help_session_does_not_ask_again|].
  intros k H. apply in_app_iff in H.
  destruct H as [H|H];
    [now apply shownBeforeInput_no_key in H | now apply helpLines_no_key in H].
Qed.

Lemma validRandom_exampleHost : validRandom exampleHost.
Proof. intros i. split; vm_compute; [discriminate | reflexivity]. Qed.

Lemma help_ends_the_session_witness :
  exists (m : string),
    In m rps
    /\ output (main exampleHost (argvOf rps) (start [" ? "; "1"]))
       = shownBeforeInput
           (createHmac (crypto exampleHost) "sha3-256"
                       (randomBytes (crypto exampleHost) 0 32) m) rps
           ++ helpLines rps
    /\ result (main exampleHost (argvOf rps) (start [" ? "; "1"])) = Return tt
    /\ after (main exampleHost (argvOf rps) (start [" ? "; "1"]))
       = {| stdin := ["1"]; randomBytesCalls := 1; mathRandomCalls := 1 |}
    /\ ~ asksAgainAfterHelp
           (output (main exampleHost (argvOf rps) (start [" ? "; "1"])))
    /\ forall k : string,
         ~ In (HmacKeyLine k)
              (output (main exampleHost (argvOf rps) (start [" ? "; "1"]))).
Proof.
  apply (help_ends_the_session exampleHost rps " ? " ["1"]).
  - exact validMoveSet_rps.
  - exact validRandom_exampleHost.
  - reflexivity.
Defined.

(** C8.  An argument list of even size, of size below 3, or with a label
    twice is rejected: [main] prints the [InvalidInputError] that carries the
    usage text (the only error of the program for a bad configuration) and
    ends, and neither [randomBytes] nor [Math.random] has been called: no key
    is generated and no computer's move is selected. *)
Theorem invalid_configuration_rejected_before_randomness (host : Host)
  (moves : list string) (w : World) :
  Z.even (JS.length moves) = true \/ JS.length moves < 3 \/ ~ NoDup moves ->
  output (main host (argvOf moves) w)
  = [ErrorLine (InvalidInputError usageMessage)]
  /\ result (main host (argvOf moves) w) = Return tt
  /\ randomBytesCalls (after (main host (argvOf moves) w)) = randomBytesCalls w
  /\ mathRandomCalls (after (main host (argvOf moves) w)) = mathRandomCalls w
  /\ stdin (after (main host (argvOf moves) w)) = stdin w.
Proof.
  intros H.
  assert (Hrej : rejected moves = true).
  { destruct (rejected moves) eqn:E; [reflexivity|].
    apply rejected_false in E. destruct E as (Hlen & Hodd & Hnd).
    rewrite <- Z.negb_odd, Hodd in H. cbn [negb] in H.
    destruct H as [H|[H|H]]; [discriminate H | lia | contradiction]. }
  rewrite (main_rejects host moves w Hrej). cbn [output after result].
  repeat split; reflexivity.
Qed.

Lemma invalid_configuration_rejected_before_randomness_witness :
  (output (main exampleHost (argvOf ["Rock"; "Paper"; "Scissors"; "Lizard"])
                (start ["1"]))
   = [ErrorLine (InvalidInputError usageMessage)]
   /\ result (main exampleHost (argvOf ["Rock"; "Paper"; "Scissors"; "Lizard"])
                   (start ["1"])) = Return tt
   /\ randomBytesCalls
        (after (main exampleHost (argvOf ["Rock"; "Paper"; "Scissors"; "Lizard"])
                     (start ["1"]))) = randomBytesCalls (start ["1"])
   /\ mathRandomCalls
        (after (main exampleHost (argvOf ["Rock"; "Paper"; "Scissors"; "Lizard"])
                     (start ["1"]))) = mathRandomCalls (start ["1"])
   /\ stdin
        (after (main exampleHost (argvOf ["Rock"; "Paper"; "Scissors"; "Lizard"])
                     (start ["1"]))) = stdin (start ["1"]))
  /\ output (main exampleHost (argvOf ["Rock"]) (start ["1"]))
     = [ErrorLine (InvalidInputError usageMessage)]
  /\ output (main exampleHost (argvOf ["Rock"; "Paper"; "Rock"]) (start ["1"]))
     = [ErrorLine (InvalidInputError usageMessage)].
Proof.
  split; [|split].
  - apply (invalid_configuration_rejected_before_randomness exampleHost
             ["Rock"; "Paper"; "Scissors"; "Lizard"] (start ["1"])).
    left. reflexivity.
  - apply (invalid_configuration_rejected_before_randomness exampleHost
             ["Rock"] (start ["1"])).
    right. left. reflexivity.
  - apply (invalid_configuration_rejected_before_randomness exampleHost
             ["Rock"; "Paper"; "Rock"] (start ["1"])).
    right. right. intros H. inversion H as [|? ? Hnotin _]; subst.
    apply Hnotin. simpl. tauto.
Defined.

(** ** Input that selects no move *)

Lemma determineWinner_undefined (moves : list string) (computerMove : value) :
  GameLogic.determineWinner moves undefined computerMove
  = Throw (InvalidInputError chooseValidMoveMessage).
Proof.
  unfold GameLogic.determineWinner, indexOf.
  now rewrite indexOfFrom_undefined.
Qed.

(** A number that passes the gate and denotes none of [1 .. n] looks up
    nothing in the array. *)
Lemma get_undefined (moves : list string) (x : number) :
  isNaN x || ltb x 0 || gtb x (inject_Z (JS.length moves)) = false ->
  selectsMove x (JS.length moves) = false ->
  get moves (sub x 1) = undefined.
Proof.
  intros Hgate Hsel.
  destruct x as [|negative|q]; try reflexivity.
  cbn [isNaN ltb gtb orb] in Hgate. apply orb_false_iff in Hgate.
  destruct Hgate as [_ Hle]. apply negb_false_iff, Qle_bool_iff in Hle.
  cbn [sub get].
  destruct (Qeq_bool (inject_Z (Qfloor (q - 1))) (q - 1)
            && (0 <=? Qfloor (q - 1))) eqn:E; [|reflexivity].
  exfalso. apply andb_true_iff in E. destruct E as [Eint Epos].
  apply Qeq_bool_iff in Eint. apply Z.leb_le in Epos.
  assert (Hq : (q == inject_Z (Qfloor (q - 1) + 1))%Q).
  { rewrite inject_Z_plus, Eint. ring. }
  assert (Hfloor : Qfloor q = Qfloor (q - 1) + 1).
  { rewrite Hq at 1. apply Qfloor_Z. }
  cbn [selectsMove] in Hsel.
  assert (Hn : Qfloor q <= JS.length moves).
  { rewrite <- (Qfloor_Z (JS.length moves)). now apply Qfloor_resp_le. }
  replace (Qeq_bool (inject_Z (Qfloor q)) q) with true in Hsel
    by (symmetry; apply Qeq_bool_iff; rewrite Hfloor; symmetry; exact Hq).
  replace (1 <=? Qfloor q) with true in Hsel
    by (symmetry; apply Z.leb_le; lia).
  replace (Qfloor q <=? JS.length moves) with true in Hsel
    by (symmetry; apply Z.leb_le; lia).
  discriminate Hsel.
Qed.

(** The reply to a line that is neither [?] nor [0] and selects no move: the
    error alone when the gate rejects the number, and otherwise the two
    moves, the user's being [undefined], followed by the error that the
    resolver throws. *)
Lemma replyTo_no_move (host : Host) (moves : list string) (key m input : string) :
  input <> "?" -> input <> "0" ->
  selectsMove (Number input) (JS.length moves) = false ->
  replyTo (controllerOf host moves key) (Str m) input
  = if isNaN (Number input)
       || ltb (Number input) 0
       || gtb (Number input) (inject_Z (JS.length moves))
    then [ErrorLine (InvalidInputError chooseValidMoveMessage)]
    else [YourMove undefined; ComputersMove (Str m);
          ErrorLine (InvalidInputError chooseValidMoveMessage)].
Proof.
  intros Hhelp Hexit Hsel. unfold replyTo, RPSGame.determineWinner.
  cbn [controllerOf GameController.constructor gameOf GameController.moves
       GameController.game RPSGame.hmacKey RPSGame.gameLogic].
  apply String.eqb_neq in Hhelp. apply String.eqb_neq in Hexit.
  rewrite Hhelp, Hexit.
  destruct (isNaN (Number input) || ltb (Number input) 0
            || gtb (Number input) (inject_Z (JS.length moves))) eqn:Egate;
    [reflexivity|].
  rewrite (get_undefined moves (Number input) Egate Hsel).
  now rewrite determineWinner_undefined.
Qed.

(** C9, as stated, fails: [01] is outside the grammar of recognised inputs
    for five moves, and the session takes it for move 1, resolves the round
    and reveals the key. *)
Lemma unrecognized_input_is_played :
  recognized 5 "01" = false
  /\ output (main exampleHost (argvOf rpsls) (start ["01"]))
     = shownBeforeInput "sha3-256/6b6579/Paper" rpsls
         ++ [YourMove (Str "Rock"); ComputersMove (Str "Paper"); Result Win;
             HmacKeyLine "6b6579"].
Proof. split; reflexivity. Qed.

(** C9, amended.  For every line that, once trimmed, is neither [?] nor [0]
    and whose numeric value is not an integer in [[1, N]] (such as [abc],
    [-1], or [99] with N = 5), the session prints an [InvalidInputError] as
    its last line and ends without revealing the key.  A line outside the
    grammar whose numeric value is an integer in [[1, N]] is played as that
    move. *)
Theorem invalid_input_ends_without_reveal (host : Host) (moves : list string)
  (answer : string) (rest : list string) :
  validMoveSet moves -> validRandom host ->
  trim answer <> "?" -> trim answer <> "0" ->
  selectsMove (Number (trim answer)) (JS.length moves) = false ->
  result (main host (argvOf moves) (start (answer :: rest))) = Return tt
  /\ (exists shown : list line,
        output (main host (argvOf moves) (start (answer :: rest)))
        = shown ++ [ErrorLine (InvalidInputError chooseValidMoveMessage)])
  /\ forall k : string,
       ~ In (HmacKeyLine k)
            (output (main host (argvOf moves) (start (answer :: rest)))).
Proof.
  intros Hvalid Hrandom Hhelp Hexit Hsel.
  destruct (session_run host moves answer rest Hvalid Hrandom)
    as (i & m & Hi & ->).
  cbn [output after result].
  rewrite (replyTo_no_move host moves _ m (trim answer) Hhelp Hexit Hsel).
  split; [reflexivity|].
  destruct (isNaN _ || ltb _ 0 || gtb _ _).
  - split.
    + eexists. reflexivity.
    + intros k H. apply in_app_iff in H. destruct H as [H|[H|[]]];
        [now apply shownBeforeInput_no_key in H | discriminate H].
  - split.
    + eexists (_ ++ [_; _]). now rewrite <- app_assoc.
    + intros k H. apply in_app_iff in H. destruct H as [H|[H|[H|[H|[]]]]];
        [now apply shownBeforeInput_no_key in H | discriminate H ..].
Qed.

Lemma invalid_input_ends_without_reveal_witness :
  (result (main exampleHost (argvOf rpsls) (start ["abc"])) = Return tt
   /\ (exists shown : list line,
         output (main exampleHost (argvOf rpsls) (start ["abc"]))
         = shown ++ [ErrorLine (InvalidInputError chooseValidMoveMessage)])
   /\ forall k : string,
        ~ In (HmacKeyLine k)
             (output (main exampleHost (argvOf rpsls) (start ["abc"]))))
  /\ (forall k : string,
        ~ In (HmacKeyLine k)
             (output (main exampleHost (argvOf rpsls) (start ["-1"]))))
  /\ (forall k : string,
        ~ In (HmacKeyLine k)
             (output (main exampleHost (argvOf rpsls) (start ["99"])))).
Proof.
  split; [|split].
  - apply (invalid_input_ends_without_reveal exampleHost rpsls "abc" []);
      [exact validMoveSet_rpsls | exact validRandom_exampleHost
       | discriminate | discriminate | reflexivity].
  - apply (invalid_input_ends_without_reveal exampleHost rpsls "-1" []);
      [exact validMoveSet_rpsls | exact validRandom_exampleHost
       | discriminate | discriminate | reflexivity].
  - apply (invalid_input_ends_without_reveal exampleHost rpsls "99" []);
      [exact validMoveSet_rpsls | exact validRandom_exampleHost
       | discriminate | discriminate | reflexivity].
Defined.

(** C10.  The gate [validateUserInput] throws exactly for the numbers that
    are [NaN], below [0] or above the number of moves.  A line that is not
    [0] once trimmed and whose numeric value lies in [[0, N]] without being
    an integer in [[1, N]] (such as the empty line, [00] or [2.5]) passes the
    gate; the move looked up is [undefined], the resolver throws the
    [InvalidInputError] for it, and the session ends on that error after
    printing the two moves, without revealing the key. *)
Theorem gate_passes_and_resolver_rejects (host : Host) (moves : list string)
  (answer : string) (rest : list string) (q : Q) :
  validMoveSet moves -> validRandom host ->
  trim answer <> "0" ->
  Number (trim answer) = Finite q ->
  (0 <= q)%Q -> (q <= inject_Z (JS.length moves))%Q ->
  selectsMove (Finite q) (JS.length moves) = false ->
  let this := controllerOf host moves (randomBytes (crypto host) 0 32) in
  let userMoveIndex := Number (trim answer) in
  let userMove := get moves (sub userMoveIndex 1) in
  (forall (x : number) (w : World),
      result (GameController.validateUserInput this x w)
      = if isNaN x || ltb x 0 || gtb x (inject_Z (JS.length moves))
        then Throw (InvalidInputError chooseValidMoveMessage)
        else Return tt)
  /\ (forall w : World,
        result (GameController.validateUserInput this userMoveIndex w)
        = Return tt)
  /\ userMove = undefined
  /\ (forall computerMove : value,
        GameLogic.determineWinner moves userMove computerMove
        = Throw (InvalidInputError chooseValidMoveMessage))
  /\ (exists m : string,
        In m moves
        /\ output (main host (argvOf moves) (start (answer :: rest)))
           = shownBeforeInput
               (createHmac (crypto host) "sha3-256"
                           (randomBytes (crypto host) 0 32) m) moves
               ++ [YourMove undefined; ComputersMove (Str m);
                   ErrorLine (InvalidInputError chooseValidMoveMessage)])
  /\ result (main host (argvOf moves) (start (answer :: rest))) = Return tt
  /\ forall k : string,
       ~ In (HmacKeyLine k)
            (output (main host (argvOf moves) (start (answer :: rest)))).
Proof.
  intros Hvalid Hrandom Hexit Hnum H0 Hn Hsel this userMoveIndex userMove.
  assert (Hgate : isNaN userMoveIndex || ltb userMoveIndex 0
                  || gtb userMoveIndex (inject_Z (JS.length moves)) = false).
  { unfold userMoveIndex. rewrite Hnum. cbn [isNaN ltb gtb orb].
    apply orb_false_iff. split; apply negb_false_iff, Qle_bool_iff; assumption. }
  assert (Hhelp : trim answer <> "?").
  { intros E. rewrite E in Hnum. discriminate Hnum. }
  assert (Hundef : userMove = undefined).
  { apply get_undefined; [exact Hgate|]. unfold userMoveIndex.
    now rewrite Hnum. }
  assert (Hgeneral : forall (x : number) (w : World),
    result (GameController.validateUserInput this x w)
    = if isNaN x || ltb x 0 || gtb x (inject_Z (JS.length moves))
      then Throw (InvalidInputError chooseValidMoveMessage)
      else Return tt).
  { intros x w. unfold GameController.validateUserInput.
    cbn [this controllerOf GameController.constructor GameController.moves].
    now destruct (isNaN x || ltb x 0 || gtb x (inject_Z (JS.length moves))). }
  split; [exact Hgeneral|].
  split; [intros w; now rewrite Hgeneral, Hgate|].
  split; [exact Hundef|].
  split; [intros c; rewrite Hundef; apply determineWinner_undefined|].
  destruct (session_run host moves answer rest Hvalid Hrandom)
    as (i & m & Hi & ->).
  cbn [output after result].
  rewrite (replyTo_no_move host moves _ m (trim answer) Hhelp Hexit)
    by (now rewrite Hnum).
  fold userMoveIndex. rewrite Hgate.
  split.
  - exists m. split; [eapply nth_error_In; eassumption | reflexivity].
  - split; [reflexivity|].
    intros k H. apply in_app_iff in H. destruct H as [H|[H|[H|[H|[]]]]];
      [now apply shownBeforeInput_no_key in H | discriminate H ..].
Qed.

Lemma gate_passes_and_resolver_rejects_witness :
  (Number (trim "") = Finite 0
   /\ forall k : string,
        ~ In (HmacKeyLine k)
             (output (main exampleHost (argvOf rpsls) (start [""]))))
  /\ (Number (trim "00") = Finite 0
      /\ forall k : string,
           ~ In (HmacKeyLine k)
                (output (main exampleHost (argvOf rpsls) (start ["00"]))))
  /\ (Number (trim "2.5") = Finite (5 # 2)
      /\ forall k : string,
           ~ In (HmacKeyLine k)
                (output (main exampleHost (argvOf rpsls) (start ["2.5"])))).
Proof.
  split; [|split].
  - split; [reflexivity|].
    apply (gate_passes_and_resolver_rejects exampleHost rpsls "" [] 0
             validMoveSet_rpsls validRandom_exampleHost);
      [discriminate | reflexivity | discriminate | discriminate | reflexivity].
  - split; [reflexivity|].
    apply (gate_passes_and_resolver_rejects exampleHost rpsls "00" [] 0
             validMoveSet_rpsls validRandom_exampleHost);
      [discriminate | reflexivity | discriminate | discriminate | reflexivity].
  - split; [reflexivity|].
    apply (gate_passes_and_resolver_rejects exampleHost rpsls "2.5" [] (5 # 2)
             validMoveSet_rpsls validRandom_exampleHost);
      [discriminate | reflexivity | discriminate | discriminate | reflexivity].
Defined.

(** The three sessions, line by line. *)
Example sessions_on_lines_that_pass_the_gate :
  map (fun answer => output (main exampleHost (argvOf rpsls) (start [answer])))
      [""; "00"; "2.5"]
  = let printed :=
      shownBeforeInput "sha3-256/6b6579/Paper" rpsls
        ++ [YourMove undefined; ComputersMove (Str "Paper");
            ErrorLine (InvalidInputError chooseValidMoveMessage)] in
    [printed; printed; printed].
Proof. reflexivity. Qed.

(** * Further properties of the code *)

(** ** The resolver, [GameLogic.determineWinner] *)

Lemma indexOfFrom_not_member (arr : list string) :
  forall (s : string) (k : Z),
    ~ In s arr -> indexOfFrom arr (Str s) k = -1.
Proof.
  induction arr as [|a arr IH]; intros s k Hnotin; [reflexivity|].
  cbn [indexOfFrom]. rewrite strictEq_Str.
  destruct (String.eqb a s) eqn:E.
  - apply String.eqb_eq in E. exfalso. apply Hnotin. now left.
  - apply IH. intros Hin. apply Hnotin. now right.
Qed.

Lemma indexOf_minus_one (arr : list string) (s : string) :
  (indexOf arr (Str s) =? -1) = true <-> ~ In s arr.
Proof.
  unfold indexOf. split.
  - intros H Hin. apply Z.eqb_eq in H.
    pose proof (indexOfFrom_member arr s 0 Hin (Z.le_refl 0)). lia.
  - intros H. now rewrite indexOfFrom_not_member.
Qed.

(** X1.  The outcome of the resolver in terms of positions, for an array
    without repeated labels: a draw on equal positions; otherwise the user
    wins exactly when the user's position [u] is one of the [half] positions
    after the computer's position [c], or lies below [c - half] when
    [c - half] is not negative, or lies below [n + c - half] when [c - half]
    is negative (the bound of [slice(0, c - half)] then counts from the end
    of the array). *)
Theorem resolver_outcome_by_position (moves : list string) (u c : nat)
  (userMove computerMove : string) :
  NoDup moves ->
  nth_error moves u = Some userMove ->
  nth_error moves c = Some computerMove ->
  let n := JS.length moves in
  let half := n / 2 in
  let U := Z.of_nat u in
  let C := Z.of_nat c in
  GameLogic.determineWinner moves (Str userMove) (Str computerMove)
  = Return (if U =? C then Draw
            else if ((C <? U) && (U <=? C + half))
                    || ((0 <=? C - half) && (U <? C - half))
                    || ((C - half <? 0) && (U <? n + C - half))
                 then Win else Lose).
Proof. exact (determineWinner_by_index moves u c userMove computerMove). Qed.

Lemma resolver_outcome_by_position_witness :
  GameLogic.determineWinner
    ["A"; "B"; "C"; "D"; "E"; "F"; "G"] (Str "B") (Str "C")
  = Return (if 1 =? 2 then Draw
            else if ((2 <? 1) && (1 <=? 2 + 7 / 2))
                    || ((0 <=? 2 - 7 / 2) && (1 <? 2 - 7 / 2))
                    || ((2 - 7 / 2 <? 0) && (1 <? 7 + 2 - 7 / 2))
                 then Win else Lose).
Proof.
  apply (resolver_outcome_by_position
           ["A"; "B"; "C"; "D"; "E"; "F"; "G"] 1 2 "B" "C");
    [nodup_strings | reflexivity | reflexivity].
Defined.

(** X2.  On a valid move set the resolver returns the outcome of the cyclic
    rule exactly for the pairs of positions outside the region where the
    user's position is below the computer's and the computer's is below
    [floor(N/2)]. *)
Theorem resolver_follows_rule_iff_outside_slip (moves : list string) (u c : nat)
  (userMove computerMove : string) :
  validMoveSet moves ->
  nth_error moves u = Some userMove ->
  nth_error moves c = Some computerMove ->
  GameLogic.determineWinner moves (Str userMove) (Str computerMove)
  = Return (cyclicRule (JS.length moves) (Z.of_nat u) (Z.of_nat c))
  <-> ~ (Z.of_nat u < Z.of_nat c < JS.length moves / 2).
Proof.
  intros Hvalid Hu Hc. split.
  - intros H Hslip.
    destruct (determineWinner_slip moves u c _ _ Hvalid Hu Hc Hslip) as [Hw Hl].
    rewrite Hw, Hl in H. discriminate H.
  - now apply determineWinner_cyclicRule.
Qed.

Lemma resolver_follows_rule_iff_outside_slip_witness :
  GameLogic.determineWinner rpsls (Str "Spock") (Str "Paper")
  = Return (cyclicRule (JS.length rpsls) (Z.of_nat 4) (Z.of_nat 1))
  <-> ~ (Z.of_nat 4 < Z.of_nat 1 < JS.length rpsls / 2).
Proof.
  apply (resolver_follows_rule_iff_outside_slip rpsls 4 1 "Spock" "Paper");
    [exact validMoveSet_rpsls | reflexivity | reflexivity].
Defined.

(** X3.  With three moves the resolver follows the cyclic rule on every pair
    of moves: the classical game is resolved correctly whatever the three
    distinct labels are. *)
Theorem resolver_correct_for_three_moves (moves : list string) (u c : nat)
  (userMove computerMove : string) :
  NoDup moves -> List.length moves = 3%nat ->
  nth_error moves u = Some userMove ->
  nth_error moves c = Some computerMove ->
  GameLogic.determineWinner moves (Str userMove) (Str computerMove)
  = Return (cyclicRule 3 (Z.of_nat u) (Z.of_nat c)).
Proof.
  intros Hnd Hlen Hu Hc.
  assert (Hn : JS.length moves = 3) by (unfold JS.length; now rewrite Hlen).
  rewrite <- Hn. apply determineWinner_cyclicRule; try assumption.
  - unfold validMoveSet. rewrite Hn. repeat split; [lia | assumption].
  - rewrite Hn. change (3 / 2) with 1. lia.
Qed.

Lemma resolver_correct_for_three_moves_witness :
  GameLogic.determineWinner ["Fire"; "Water"; "Grass"] (Str "Fire") (Str "Grass")
  = Return (cyclicRule 3 (Z.of_nat 0) (Z.of_nat 2)).
Proof.
  apply (resolver_correct_for_three_moves ["Fire"; "Water"; "Grass"] 0 2);
    [nodup_strings | reflexivity | reflexivity | reflexivity].
Defined.

(** X4.  On every valid move set of five moves or more the resolver departs
    from the cyclic rule: the user on the first move against the computer on
    the second is declared the winner, and the rule says the user loses. *)
Theorem resolver_wrong_from_five_moves (moves : list string) :
  validMoveSet moves -> 5 <= JS.length moves ->
  exists (first second : string),
    nth_error moves 0 = Some first
    /\ nth_error moves 1 = Some second
    /\ GameLogic.determineWinner moves (Str first) (Str second) = Return Win
    /\ cyclicRule (JS.length moves) 0 1 = Lose.
Proof.
  intros Hvalid Hlen.
  destruct moves as [|first [|second rest]];
    try (unfold JS.length in Hlen; cbn [List.length] in Hlen; lia).
  exists first, second. split; [reflexivity|]. split; [reflexivity|].
  apply (determineWinner_slip (first :: second :: rest) 0 1 first second Hvalid);
    try reflexivity.
  change (Z.of_nat 0) with 0. change (Z.of_nat 1) with 1.
  assert (2 <= JS.length (first :: second :: rest) / 2)
    by (apply Z.div_le_lower_bound; lia).
  lia.
Qed.

Lemma resolver_wrong_from_five_moves_witness :
  exists (first second : string),
    nth_error ["1"; "2"; "3"; "4"; "5"; "6"; "7"; "8"; "9"] 0 = Some first
    /\ nth_error ["1"; "2"; "3"; "4"; "5"; "6"; "7"; "8"; "9"] 1 = Some second
    /\ GameLogic.determineWinner ["1"; "2"; "3"; "4"; "5"; "6"; "7"; "8"; "9"]
         (Str first) (Str second) = Return Win
    /\ cyclicRule (JS.length ["1"; "2"; "3"; "4"; "5"; "6"; "7"; "8"; "9"]) 0 1
       = Lose.
Proof.
  apply (resolver_wrong_from_five_moves
           ["1"; "2"; "3"; "4"; "5"; "6"; "7"; "8"; "9"]).
  - repeat split; try (intros K; discriminate K). nodup_strings.
  - intros K; discriminate K.
Defined.

(** X5.  The resolver throws its [InvalidInputError] exactly when one of the
    two labels is not in the array of moves. *)
Theorem resolver_throws_iff_not_member (moves : list string) (a b : string) :
  GameLogic.determineWinner moves (Str a) (Str b)
  = Throw (InvalidInputError chooseValidMoveMessage)
  <-> ~ In a moves \/ ~ In b moves.
Proof.
  unfold GameLogic.determineWinner.
  destruct ((indexOf moves (Str a) =? -1) || (indexOf moves (Str b) =? -1))
    eqn:E.
  - apply orb_true_iff in E. rewrite !indexOf_minus_one in E.
    split; [intros _; exact E | reflexivity].
  - apply orb_false_iff in E. destruct E as [Ea Eb]. split.
    + intros H.
      repeat match type of H with
             | (if ?t then _ else _) = _ => destruct t
             end; discriminate H.
    + intros [H|H]; apply indexOf_minus_one in H; congruence.
Qed.

(** X6.  Between members of the array the resolver declares a draw exactly
    when the two labels are the same. *)
Theorem resolver_draw_iff_same_label (moves : list string) (a b : string) :
  In a moves -> In b moves ->
  GameLogic.determineWinner moves (Str a) (Str b) = Return Draw <-> a = b.
Proof.
  intros Ha Hb. unfold GameLogic.determineWinner.
  replace (indexOf moves (Str a) =? -1) with false
    by (symmetry; apply not_true_iff_false; rewrite indexOf_minus_one; tauto).
  replace (indexOf moves (Str b) =? -1) with false
    by (symmetry; apply not_true_iff_false; rewrite indexOf_minus_one; tauto).
  cbn [orb]. rewrite strictEq_Str.
  destruct (String.eqb a b) eqn:E.
  - apply String.eqb_eq in E. tauto.
  - apply String.eqb_neq in E. split; [|tauto].
    intros H. match type of H with
              | (if ?t then _ else _) = _ => destruct t
              end; discriminate H.
Qed.

Lemma resolver_draw_iff_same_label_witness :
  GameLogic.determineWinner rpsls (Str "Lizard") (Str "Spock") = Return Draw
  <-> "Lizard" = "Spock".
Proof.
  apply (resolver_draw_iff_same_label rpsls "Lizard" "Spock"); simpl; tauto.
Defined.

(** ** The help table, [RPSHelper.generateTable] and [determineOutcome] *)

Lemma odd_half (n : Z) : Z.odd n = true -> n = 2 * (n / 2) + 1.
Proof.
  intros Hodd. rewrite (Z.div_mod n 2) at 1 by lia.
  now rewrite Zmod_odd, Hodd.
Qed.

(** [determineOutcome] on positions of an odd-sized array, without [mod]. *)
Lemma determineOutcome_positions (i j n : nat) :
  Nat.odd n = true -> (i < n)%nat -> (j < n)%nat ->
  RPSHelper.determineOutcome (Z.of_nat i) (Z.of_nat j) (Z.of_nat n)
  = if (j =? i)%nat then Draw
    else if ((i <? j)%nat && (j <=? i + n / 2)%nat) || (j + n / 2 <? i)%nat
         then Win else Lose.
Proof.
  intros Hodd Hi Hj.
  assert (HoddZ : Z.odd (Z.of_nat n) = true).
  { rewrite <- Hodd. clear. rewrite <- !Nat.negb_even, <- Z.negb_even.
    f_equal. destruct (Nat.even n) eqn:E.
    - apply Nat.even_spec in E. destruct E as [k ->].
      rewrite Nat2Z.inj_mul. now rewrite Z.even_mul.
    - apply (f_equal negb) in E. rewrite Nat.negb_even in E. cbn in E.
      apply Nat.odd_spec in E. destruct E as [k ->].
      rewrite Nat2Z.inj_add, Nat2Z.inj_mul, Z.even_add, Z.even_mul.
      reflexivity. }
  rewrite determineOutcome_cyclicRule by (assumption || lia).
  pose proof (odd_half _ HoddZ) as Hn.
  assert (Hh : Z.of_nat n / 2 = Z.of_nat (n / 2))
    by (now rewrite Nat2Z.inj_div).
  rewrite Hh in Hn.
  unfold cyclicRule. rewrite Hh.
  destruct (Nat.eqb_spec j i) as [->|Hne].
  - now rewrite Z.eqb_refl.
  - replace (Z.of_nat j =? Z.of_nat i) with false
      by (symmetry; apply Z.eqb_neq; lia).
    assert (Hmod : (Z.of_nat j - Z.of_nat i + Z.of_nat n) mod Z.of_nat n
                   = if (i <? j)%nat then Z.of_nat j - Z.of_nat i
                     else Z.of_nat j - Z.of_nat i + Z.of_nat n).
    { destruct (Nat.ltb_spec i j).
      - replace (Z.of_nat j - Z.of_nat i + Z.of_nat n)
          with ((Z.of_nat j - Z.of_nat i) + 1 * Z.of_nat n) by lia.
        rewrite Z_mod_plus_full. apply Z.mod_small. lia.
      - apply Z.mod_small. lia. }
    rewrite Hmod.
    match goal with
    | |- (if ?a then _ else _) = (if ?b then _ else _) =>
        assert (a = b) as ->; [|reflexivity]
    end.
    apply eq_true_iff_eq.
    rewrite orb_true_iff, !andb_true_iff, !Z.leb_le, !Nat.ltb_lt, Nat.leb_le.
    destruct (Nat.ltb_spec i j); lia.
Qed.

(** X7.  On an array of odd size, the entry of the help table at row [i],
    column [j + 1] is the outcome of the cyclic rule for the user on move
    [j] against the computer on move [i]. *)
Theorem help_table_follows_cyclic_rule (moves : list string) (i j : nat) :
  Z.odd (JS.length moves) = true ->
  (i < List.length moves)%nat -> (j < List.length moves)%nat ->
  entry (RPSHelper.generateTable moves) i (S j)
  = Some (Cell (cyclicRule (JS.length moves) (Z.of_nat j) (Z.of_nat i))).
Proof. exact (generateTable_entry moves i j). Qed.

Lemma help_table_follows_cyclic_rule_witness :
  entry (RPSHelper.generateTable rpsls) 3 (S 0)
  = Some (Cell (cyclicRule (JS.length rpsls) (Z.of_nat 0) (Z.of_nat 3))).
Proof.
  apply (help_table_follows_cyclic_rule rpsls 3 0);
    [reflexivity | simpl; lia | simpl; lia].
Defined.

(** X8.  The help table has one row per move; row [i] starts with the label
    of move [i] and continues with one cell per move. *)
Theorem help_table_shape (moves : list string) (i : nat) (move : string) :
  nth_error moves i = Some move ->
  List.length (RPSHelper.generateTable moves) = List.length moves
  /\ exists cells : list cell,
       nth_error (RPSHelper.generateTable moves) i = Some (Label move :: cells)
       /\ List.length cells = List.length moves
       /\ forall c, In c cells -> exists o, c = Cell o.
Proof.
  intros Hi. unfold RPSHelper.generateTable. split.
  - rewrite length_map, length_combine, length_seq. lia.
  - exists (RPSHelper.rowCells i (List.length moves)).
    rewrite nth_error_map, nth_error_indexed, Hi. cbn [option_map fst snd Nat.add].
    split; [reflexivity|]. unfold RPSHelper.rowCells.
    split; [now rewrite length_map, length_seq|].
    intros c Hc. apply in_map_iff in Hc. destruct Hc as (j & <- & _). eauto.
Qed.

Lemma help_table_shape_witness :
  List.length (RPSHelper.generateTable rps) = List.length rps
  /\ exists cells : list cell,
       nth_error (RPSHelper.generateTable rps) 2 = Some (Label "Scissors" :: cells)
       /\ List.length cells = List.length rps
       /\ forall c, In c cells -> exists o, c = Cell o.
Proof. apply (help_table_shape rps 2 "Scissors"). reflexivity. Defined.

(** X9.  For an odd number of moves [determineOutcome] is a draw exactly on
    equal positions, and it is anti-symmetric: Win for [(i, j)] exactly when
    Lose for [(j, i)]. *)
Theorem determineOutcome_antisymmetric (i j n : nat) :
  Nat.odd n = true -> (i < n)%nat -> (j < n)%nat ->
  (RPSHelper.determineOutcome (Z.of_nat i) (Z.of_nat j) (Z.of_nat n) = Draw
   <-> i = j)
  /\ (RPSHelper.determineOutcome (Z.of_nat i) (Z.of_nat j) (Z.of_nat n) = Win
      <-> RPSHelper.determineOutcome (Z.of_nat j) (Z.of_nat i) (Z.of_nat n) = Lose).
Proof.
  intros Hodd Hi Hj.
  rewrite (determineOutcome_positions i j n Hodd Hi Hj),
    (determineOutcome_positions j i n Hodd Hj Hi).
  assert (Hn : (n = 2 * (n / 2) + 1)%nat).
  { apply Nat.odd_spec in Hodd. destruct Hodd as [k ->].
    replace ((2 * k + 1) / 2)%nat with k; [reflexivity|].
    apply (Nat.div_unique _ 2 k 1); lia. }
  destruct (Nat.eqb_spec j i) as [->|Hne].
  - rewrite Nat.eqb_refl. split; [tauto|]. split; discriminate.
  - replace (i =? j)%nat with false by (symmetry; apply Nat.eqb_neq; lia).
    split.
    + split; [|lia].
      destruct ((i <? j)%nat && (j <=? i + n / 2)%nat || (j + n / 2 <? i)%nat);
        discriminate.
    + destruct (Nat.ltb_spec i j); destruct (Nat.leb_spec j (i + n / 2));
        destruct (Nat.ltb_spec (j + n / 2) i);
        destruct (Nat.ltb_spec j i); destruct (Nat.leb_spec i (j + n / 2));
        destruct (Nat.ltb_spec (i + n / 2) j);
        cbn [andb orb]; try lia; split; (reflexivity || discriminate).
Qed.

Lemma determineOutcome_antisymmetric_witness :
  (RPSHelper.determineOutcome (Z.of_nat 6) (Z.of_nat 2) (Z.of_nat 7) = Draw
   <-> 6%nat = 2%nat)
  /\ (RPSHelper.determineOutcome (Z.of_nat 6) (Z.of_nat 2) (Z.of_nat 7) = Win
      <-> RPSHelper.determineOutcome (Z.of_nat 2) (Z.of_nat 6) (Z.of_nat 7) = Lose).
Proof.
  apply (determineOutcome_antisymmetric 6 2 7); [reflexivity | lia | lia].
Defined.

Lemma count_segment (p : nat -> bool) (b : bool) (first len : nat) :
  (forall j, (first <= j < first + len)%nat -> p j = b) ->
  List.length (filter p (seq first len)) = if b then len else 0%nat.
Proof.
  revert first. induction len as [|len IH]; intros first H.
  - now destruct b.
  - cbn [seq filter]. rewrite (H first) by lia.
    specialize (IH (S first) (fun j Hj => H j ltac:(lia))).
    destruct b; cbn [List.length]; now rewrite IH.
Qed.

Lemma seq_four (a b c d : nat) :
  seq 0 (a + (b + (c + d)))
  = seq 0 a ++ seq a b ++ seq (a + b) c ++ seq (a + b + c) d.
Proof. rewrite !seq_app. reflexivity. Qed.

Lemma count_rowCells (o : Outcome) (i n : nat) :
  countOutcome o (RPSHelper.rowCells i n)
  = List.length
      (filter (fun j => cellIs o (Cell (RPSHelper.determineOutcome
                                          (Z.of_nat i) (Z.of_nat j) (Z.of_nat n))))
              (seq 0 n)).
Proof.
  unfold countOutcome, RPSHelper.rowCells.
  induction (seq 0 n) as [|j l IH]; [reflexivity|].
  cbn [map filter]. destruct (cellIs o _); cbn [List.length]; now rewrite IH.
Qed.

Ltac decide_positions :=
  repeat match goal with
         | |- context [(?a =? ?b)%nat] => destruct (Nat.eqb_spec a b)
         | |- context [(?a <? ?b)%nat] => destruct (Nat.ltb_spec a b)
         | |- context [(?a <=? ?b)%nat] => destruct (Nat.leb_spec a b)
         end;
  cbn [andb orb cellIs]; try reflexivity; try lia.

(** X10.  In the help table for an odd number [n] of moves every row is
    balanced: it holds one Draw, [floor(n/2)] Wins and [floor(n/2)] Loses. *)
Theorem help_table_rows_balanced (moves : list string) (i : nat)
  (row : list cell) :
  Nat.odd (List.length moves) = true ->
  nth_error (RPSHelper.generateTable moves) i = Some row ->
  countOutcome Draw row = 1%nat
  /\ countOutcome Win row = (List.length moves / 2)%nat
  /\ countOutcome Lose row = (List.length moves / 2)%nat.
Proof.
  intros Hodd Hrow. set (n := List.length moves) in *.
  unfold RPSHelper.generateTable in Hrow.
  rewrite nth_error_map, nth_error_indexed in Hrow.
  destruct (nth_error moves i) as [m|] eqn:Em; [|discriminate Hrow].
  assert (Hi : (i < n)%nat) by (apply nth_error_Some; congruence).
  cbn [option_map fst snd Nat.add] in Hrow. injection Hrow as <-. fold n.
  assert (Hn : (n = 2 * (n / 2) + 1)%nat).
  { generalize Hodd. intros Ho. apply Nat.odd_spec in Ho. destruct Ho as [k Hk].
    rewrite Hk at 2. replace ((2 * k + 1) / 2)%nat with k; [exact Hk|].
    apply (Nat.div_unique _ 2 k 1); lia. }
  set (h := (n / 2)%nat) in *.
  assert (Hcount : forall o,
    countOutcome o (Label m :: RPSHelper.rowCells i n)
    = List.length
        (filter (fun j => cellIs o (Cell
           (if (j =? i)%nat then Draw
            else if ((i <? j)%nat && (j <=? i + h)%nat) || (j + h <? i)%nat
                 then Win else Lose)))
           (seq 0 n))).
  { intros o. unfold countOutcome. cbn [filter].
    replace (cellIs o (Label m)) with false by (now destruct o).
    fold (countOutcome o (RPSHelper.rowCells i n)). rewrite count_rowCells.
    f_equal. apply filter_ext_in. intros j Hj. apply in_seq in Hj.
    now rewrite determineOutcome_positions by (assumption || lia). }
  rewrite !Hcount.
  destruct (Nat.le_gt_cases i h) as [Hle|Hgt].
  - assert (Hseq : seq 0 n
                   = seq 0 i ++ seq i 1 ++ seq (i + 1) h ++ seq (i + 1 + h) (h - i))
      by (rewrite <- seq_four; f_equal; lia).
    rewrite Hseq, !filter_app, !length_app.
    repeat split.
    + rewrite (count_segment _ false 0 i), (count_segment _ true i 1),
        (count_segment _ false (i + 1) h), (count_segment _ false (i + 1 + h) (h - i));
        try (intros j Hj; decide_positions). reflexivity.
    + rewrite (count_segment _ false 0 i), (count_segment _ false i 1),
        (count_segment _ true (i + 1) h), (count_segment _ false (i + 1 + h) (h - i));
        try (intros j Hj; decide_positions). lia.
    + rewrite (count_segment _ true 0 i), (count_segment _ false i 1),
        (count_segment _ false (i + 1) h), (count_segment _ true (i + 1 + h) (h - i));
        try (intros j Hj; decide_positions). lia.
  - assert (Hseq : seq 0 n
                   = seq 0 (i - h) ++ seq (i - h) h ++ seq (i - h + h) 1
                       ++ seq (i - h + h + 1) (n - 1 - i))
      by (rewrite <- seq_four; f_equal; lia).
    rewrite Hseq, !filter_app, !length_app.
    repeat split.
    + rewrite (count_segment _ false 0 (i - h)), (count_segment _ false (i - h) h),
        (count_segment _ true (i - h + h) 1),
        (count_segment _ false (i - h + h + 1) (n - 1 - i));
        try (intros j Hj; decide_positions). reflexivity.
    + rewrite (count_segment _ true 0 (i - h)), (count_segment _ false (i - h) h),
        (count_segment _ false (i - h + h) 1),
        (count_segment _ true (i - h + h + 1) (n - 1 - i));
        try (intros j Hj; decide_positions). lia.
    + rewrite (count_segment _ false 0 (i - h)), (count_segment _ true (i - h) h),
        (count_segment _ false (i - h + h) 1),
        (count_segment _ false (i - h + h + 1) (n - 1 - i));
        try (intros j Hj; decide_positions). lia.
Qed.

Lemma help_table_rows_balanced_witness :
  countOutcome Draw [Label "Spock"; Cell Win; Cell Win; Cell Lose; Cell Lose; Cell Draw]
  = 1%nat
  /\ countOutcome Win [Label "Spock"; Cell Win; Cell Win; Cell Lose; Cell Lose; Cell Draw]
     = (List.length rpsls / 2)%nat
  /\ countOutcome Lose [Label "Spock"; Cell Win; Cell Win; Cell Lose; Cell Lose; Cell Draw]
     = (List.length rpsls / 2)%nat.
Proof.
  apply (help_table_rows_balanced rpsls 4); reflexivity.
Defined.

(** X11.  For an even [n], [determineOutcome] is not anti-symmetric: two
    positions that are [n / 2] apart are a Win in both directions.  This is
    the tie that an odd number of moves avoids. *)
Theorem determineOutcome_even_both_win (i n : Z) :
  Z.even n = true -> 0 <= i -> i + n / 2 < n ->
  RPSHelper.determineOutcome i (i + n / 2) n = Win
  /\ RPSHelper.determineOutcome (i + n / 2) i n = Win.
Proof.
  intros Heven Hi Hlt.
  assert (Hn : n = 2 * (n / 2)).
  { rewrite (Z.div_mod n 2) at 1 by lia.
    rewrite Zmod_even, Heven. lia. }
  assert (Hh : 0 < n / 2) by lia.
  unfold RPSHelper.determineOutcome, JS.rem.
  rewrite !Z.rem_mod_nonneg by lia. rewrite !Qle_half.
  replace (i + n / 2 - i + n) with (n / 2 + 1 * n) by lia.
  replace (i - (i + n / 2) + n) with (n / 2) by lia.
  rewrite Z_mod_plus_full, Z.mod_small by lia.
  replace (n / 2 =? 0) with false by (symmetry; apply Z.eqb_neq; lia).
  replace (2 * (n / 2) <=? n) with true by (symmetry; apply Z.leb_le; lia).
  split; reflexivity.
Qed.

Lemma determineOutcome_even_both_win_witness :
  RPSHelper.determineOutcome 1 (1 + 4 / 2) 4 = Win
  /\ RPSHelper.determineOutcome (1 + 4 / 2) 1 4 = Win.
Proof.
  apply (determineOutcome_even_both_win 1 4); [reflexivity | lia | reflexivity].
Defined.

(** ** Sessions, [main] and [GameController.playGame] *)

(** The computer's move and the key of a session on a valid move set: they
    are fixed by the host and the move set, whatever the input. *)
Lemma session_runs (host : Host) (moves : list string) :
  validMoveSet moves -> validRandom host ->
  let key := randomBytes (crypto host) 0 32 in
  exists (i : nat) (m : string),
    nth_error moves i = Some m
    /\ main host (argvOf moves) (start [])
       = {| output :=
              shownBeforeInput (createHmac (crypto host) "sha3-256" key m) moves;
            after := {| stdin := []; randomBytesCalls := 1;
                        mathRandomCalls := 1 |};
            result := Pending |}
    /\ forall (answer : string) (rest : list string),
         main host (argvOf moves) (start (answer :: rest))
         = {| output :=
                shownBeforeInput (createHmac (crypto host) "sha3-256" key m) moves
                  ++ replyTo (controllerOf host moves key) (Str m) (trim answer);
              after := {| stdin := rest; randomBytesCalls := 1;
                          mathRandomCalls := 1 |};
              result := Return tt |}.
Proof.
  intros Hvalid Hrandom key.
  pose proof (proj2 (rejected_false moves) Hvalid) as Hacc.
  destruct Hvalid as (Hlen & _ & _).
  destruct (Hrandom 0%nat) as [H0 H1].
  destruct (computerMove_member moves (Math_random host 0) H0 H1)
    as (i & m & Hget & Hi); [unfold JS.length in Hlen; lia|].
  exists i, m. split; [assumption|]. split; [|intros answer rest].
  all: rewrite (main_accepts host moves _ Hacc), playGame_run; cbv zeta;
    cbn [start stdin randomBytesCalls mathRandomCalls worldAfter Nat.add
         controllerOf GameController.constructor GameController.moves
         GameController.game gameOf RPSGame.hmacGenerator RPSGame.hmacKey];
    rewrite Hget; reflexivity.
Qed.

Ltac scan_moves :=
  repeat first
    [ rewrite existsb_app
    | rewrite existsb_map_false by reflexivity
    | rewrite existsb_flat_map_false by reflexivity
    | progress cbn [existsb orb app isComputersMove] ];
  reflexivity.

Lemma no_computers_move (out : list line) (v : value) :
  existsb isComputersMove out = false -> ~ In (ComputersMove v) out.
Proof.
  intros H Hin.
  assert (existsb isComputersMove out = true) as K
    by (apply existsb_exists; now exists (ComputersMove v)).
  congruence.
Qed.

Lemma shownBeforeInput_no_move (hmac : string) (moves : list string) (v : value) :
  ~ In (ComputersMove v) (shownBeforeInput hmac moves).
Proof.
  apply no_computers_move. unfold shownBeforeInput, availableLines. scan_moves.
Qed.

Lemma helpLines_no_move (moves : list string) (v : value) :
  ~ In (ComputersMove v) (helpLines moves).
Proof.
  apply no_computers_move. unfold helpLines. cbv zeta. scan_moves.
Qed.

(** What a reply can contain: the computer's move it was given and the key
    of the game, nothing else of the kind. *)
Lemma replyTo_reveals (this : GameController.t) (computerMove : value)
  (input : string) :
  (forall v, In (ComputersMove v) (replyTo this computerMove input) ->
             v = computerMove)
  /\ (forall k, In (HmacKeyLine k) (replyTo this computerMove input) ->
                k = RPSGame.hmacKey (GameController.game this)).
Proof.
  unfold replyTo.
  destruct (String.eqb input "?").
  { split; intros x H;
      [now apply helpLines_no_move in H | now apply helpLines_no_key in H]. }
  destruct (String.eqb input "0").
  { split; intros x [H|[]]; discriminate H. }
  destruct (isNaN _ || ltb _ 0 || gtb _ _).
  { split; intros x [H|[]]; discriminate H. }
  destruct (RPSGame.determineWinner _ _ _) as [o|e|]; split; intros x H;
    cbn [In] in H;
    repeat match type of H with
           | _ \/ _ => destruct H as [H|H]
           | False => contradiction
           end;
    try discriminate H; now injection H.
Qed.

(** X12.  [main] prints the usage error, and nothing else, exactly for the
    argument lists that are not valid move sets: fewer than three labels, an
    even number of them, or a label twice. *)
Theorem main_rejects_exactly_invalid (host : Host) (moves : list string)
  (w : World) :
  output (main host (argvOf moves) w)
  = [ErrorLine (InvalidInputError usageMessage)]
  <-> ~ validMoveSet moves.
Proof.
  destruct (rejected moves) eqn:E.
  - rewrite (main_rejects host moves w E). cbn [output]. split; [|reflexivity].
    intros _ Hvalid. apply rejected_false in Hvalid. congruence.
  - pose proof (proj1 (rejected_false moves) E) as Hvalid.
    split; [|contradiction]. intros H. exfalso.
    rewrite (main_accepts host moves w E), playGame_run in H. cbv zeta in H.
    destruct (get _ _); [discriminate H|].
    unfold shownBeforeInput in H.
    destruct (stdin _); cbn [output app] in H; discriminate H.
Qed.

(** X13.  No exception leaves [main]: whatever the arguments, the input and
    the host, the run of [main] ends by returning or stays pending on the
    read of the line; it never ends by throwing. *)
Theorem main_never_throws (host : Host) (argv : list string) (w : World) :
  result (main host argv w) = Return tt \/ result (main host argv w) = Pending.
Proof.
  unfold main. cbv zeta. set (moves := slice argv 2 (JS.length argv)).
  unfold tryCatch.
  destruct ((JS.length moves <? 3) || negb (JS.rem (JS.length moves) 2 =? 1)
            || negb (setSize moves =? JS.length moves)).
  - left. reflexivity.
  - erewrite bind_Return by reflexivity. cbn [result output after].
    match goal with
    | |- context [GameController.playGame ?h ?c ?w'] =>
        pose proof (playGame_does_not_throw h c w') as Hnt;
        destruct (GameController.playGame h c w') as [o w'' [[]|e'|]]
    end; cbn in *;
      [left; reflexivity | exfalso; now apply (Hnt e') | right; reflexivity].
Qed.

(** X14.  The commitment does not depend on the human's input.  On a valid
    move set there is one member [m] of the move set such that, whatever is
    typed, the session first prints the digest
    [createHmac('sha3-256', key, m)] for the key of the first [randomBytes]
    call, and whatever follows announces no computer's move other than [m]
    and no key other than that key. *)
Theorem commitment_fixed_before_input (host : Host) (moves : list string) :
  validMoveSet moves -> validRandom host ->
  exists m : string,
    In m moves
    /\ forall input : list string,
         exists reply : list line,
           output (main host (argvOf moves) (start input))
           = shownBeforeInput
               (createHmac (crypto host) "sha3-256"
                           (randomBytes (crypto host) 0 32) m) moves
               ++ reply
           /\ (forall v, In (ComputersMove v) reply -> v = Str m)
           /\ (forall k, In (HmacKeyLine k) reply ->
                         k = randomBytes (crypto host) 0 32).
Proof.
  intros Hvalid Hrandom.
  destruct (session_runs host moves Hvalid Hrandom) as (i & m & Hi & Hnil & Hcons).
  exists m. split; [eapply nth_error_In; eassumption|].
  intros [|answer rest].
  - exists []. rewrite Hnil. cbn [output]. rewrite app_nil_r.
    split; [reflexivity|]. split; intros x [].
  - eexists. rewrite Hcons. cbn [output]. split; [reflexivity|].
    apply (replyTo_reveals
             (controllerOf host moves (randomBytes (crypto host) 0 32))
             (Str m) (trim answer)).
Qed.

Lemma commitment_fixed_before_input_witness :
  exists m : string,
    In m rpsls
    /\ forall input : list string,
         exists reply : list line,
           output (main exampleHost (argvOf rpsls) (start input))
           = shownBeforeInput
               (createHmac (crypto exampleHost) "sha3-256"
                           (randomBytes (crypto exampleHost) 0 32) m) rpsls
               ++ reply
           /\ (forall v, In (ComputersMove v) reply -> v = Str m)
           /\ (forall k, In (HmacKeyLine k) reply ->
                         k = randomBytes (crypto exampleHost) 0 32).
Proof.
  apply (commitment_fixed_before_input exampleHost rpsls);
    [exact validMoveSet_rpsls | exact validRandom_exampleHost].
Defined.

(** X15.  When the human enters [0] the session prints [Exiting...] after
    the commitment and ends; neither the key nor the computer's move is
    printed. *)
Theorem exit_reveals_nothing (host : Host) (moves : list string)
  (answer : string) (rest : list string) :
  validMoveSet moves -> validRandom host -> trim answer = "0" ->
  (exists m : string,
      In m moves
      /\ output (main host (argvOf moves) (start (answer :: rest)))
         = shownBeforeInput
             (createHmac (crypto host) "sha3-256"
                         (randomBytes (crypto host) 0 32) m) moves
             ++ [Exiting])
  /\ result (main host (argvOf moves) (start (answer :: rest))) = Return tt
  /\ (forall k : string,
        ~ In (HmacKeyLine k)
             (output (main host (argvOf moves) (start (answer :: rest)))))
  /\ (forall v : value,
        ~ In (ComputersMove v)
             (output (main host (argvOf moves) (start (answer :: rest))))).
Proof.
  intros Hvalid Hrandom Hexit.
  destruct (session_runs host moves Hvalid Hrandom) as (i & m & Hi & _ & Hcons).
  rewrite Hcons. cbn [output result]. unfold replyTo. rewrite Hexit.
  change (String.eqb "0" "?") with false. change (String.eqb "0" "0") with true.
  cbv iota.
  split; [exists m; split; [eapply nth_error_In; eassumption | reflexivity]|].
  split; [reflexivity|].
  split; intros x H; apply in_app_iff in H; destruct H as [H|[H|[]]];
    try discriminate H;
    [now apply shownBeforeInput_no_key in H
    | now apply shownBeforeInput_no_move in H].
Qed.

Lemma exit_reveals_nothing_witness :
  (exists m : string,
      In m rpsls
      /\ output (main exampleHost (argvOf rpsls) (start ["0 "; "1"]))
         = shownBeforeInput
             (createHmac (crypto exampleHost) "sha3-256"
                         (randomBytes (crypto exampleHost) 0 32) m) rpsls
             ++ [Exiting])
  /\ result (main exampleHost (argvOf rpsls) (start ["0 "; "1"])) = Return tt
  /\ (forall k : string,
        ~ In (HmacKeyLine k)
             (output (main exampleHost (argvOf rpsls) (start ["0 "; "1"]))))
  /\ (forall v : value,
        ~ In (ComputersMove v)
             (output (main exampleHost (argvOf rpsls) (start ["0 "; "1"])))).
Proof.
  apply (exit_reveals_nothing exampleHost rpsls "0 " ["1"]);
    [exact validMoveSet_rpsls | exact validRandom_exampleHost | reflexivity].
Defined.

(** X16.  When standard input ends before a line is read, the session has
    printed the commitment, the menu and the question, and stays pending on
    the read: nothing more is printed, so neither the key nor the computer's
    move is revealed. *)
Theorem end_of_input_leaves_session_pending (host : Host) (moves : list string) :
  validMoveSet moves -> validRandom host ->
  result (main host (argvOf moves) (start [])) = Pending
  /\ (exists m : string,
        In m moves
        /\ output (main host (argvOf moves) (start []))
           = shownBeforeInput
               (createHmac (crypto host) "sha3-256"
                           (randomBytes (crypto host) 0 32) m) moves)
  /\ (forall k : string,
        ~ In (HmacKeyLine k) (output (main host (argvOf moves) (start []))))
  /\ (forall v : value,
        ~ In (ComputersMove v) (output (main host (argvOf moves) (start [])))).
Proof.
  intros Hvalid Hrandom.
  destruct (session_runs host moves Hvalid Hrandom) as (i & m & Hi & Hnil & _).
  rewrite Hnil. cbn [output result]. split; [reflexivity|].
  split; [exists m; split; [eapply nth_error_In; eassumption | reflexivity]|].
  split; intros x H;
    [now apply shownBeforeInput_no_key in H
    | now apply shownBeforeInput_no_move in H].
Qed.

Lemma end_of_input_leaves_session_pending_witness :
  result (main exampleHost (argvOf rps) (start [])) = Pending
  /\ (exists m : string,
        In m rps
        /\ output (main exampleHost (argvOf rps) (start []))
           = shownBeforeInput
               (createHmac (crypto exampleHost) "sha3-256"
                           (randomBytes (crypto exampleHost) 0 32) m) rps)
  /\ (forall k : string,
        ~ In (HmacKeyLine k) (output (main exampleHost (argvOf rps) (start []))))
  /\ (forall v : value,
        ~ In (ComputersMove v) (output (main exampleHost (argvOf rps) (start [])))).
Proof.
  apply (end_of_input_leaves_session_pending exampleHost rps);
    [exact validMoveSet_rps | exact validRandom_exampleHost].
Defined.

(** A number that denotes one of the moves [1 .. n] passes the gate and
    looks up that move. *)
Lemma get_selected (moves : list string) (q : Q) :
  selectsMove (Finite q) (JS.length moves) = true ->
  isNaN (Finite q) || ltb (Finite q) 0
    || gtb (Finite q) (inject_Z (JS.length moves)) = false
  /\ exists u : string,
       nth_error moves (Z.to_nat (Qfloor q - 1)) = Some u
       /\ get moves (sub (Finite q) 1) = Str u.
Proof.
  cbn [selectsMove]. intros H.
  apply andb_true_iff in H. destruct H as [H Hn].
  apply andb_true_iff in H. destruct H as [Hint H1].
  apply Qeq_bool_iff in Hint. apply Z.leb_le in H1, Hn.
  set (k := Qfloor q) in *.
  assert (Hq1 : (q - 1 == inject_Z (k - 1))%Q).
  { rewrite <- Hint. unfold Zminus. rewrite inject_Z_plus, inject_Z_opp.
    reflexivity. }
  assert (Hf : Qfloor (q - 1) = k - 1) by (rewrite Hq1; apply Qfloor_Z).
  assert (He : Qeq_bool (inject_Z (Qfloor (q - 1))) (q - 1) = true)
    by (apply Qeq_bool_iff; rewrite Hf; symmetry; exact Hq1).
  split.
  - cbn [isNaN ltb gtb orb]. apply orb_false_iff.
    split; apply negb_false_iff, Qle_bool_iff; rewrite <- Hint.
    + change 0%Q with (inject_Z 0). rewrite <- Zle_Qle. lia.
    + rewrite <- Zle_Qle. lia.
  - cbn [sub get]. rewrite He, Hf.
    replace (0 <=? k - 1) with true by (symmetry; apply Z.leb_le; lia).
    cbn [andb].
    destruct (nth_error moves (Z.to_nat (k - 1))) as [u|] eqn:E.
    + exists u. split; reflexivity.
    + apply nth_error_None in E. unfold JS.length in Hn. lia.
Qed.

(** X17.  A line whose numeric value is an integer [k] in [[1, N]] is played
    as the move at position [k - 1]: the session prints that move, the
    computer's move, the outcome that the resolver returns for the two, and
    then the key of the commitment. *)
Theorem numbered_input_is_played (host : Host) (moves : list string)
  (answer : string) (rest : list string) (q : Q) :
  validMoveSet moves -> validRandom host ->
  Number (trim answer) = Finite q ->
  selectsMove (Finite q) (JS.length moves) = true ->
  exists (userMove computerMove : string) (o : Outcome),
    nth_error moves (Z.to_nat (Qfloor q - 1)) = Some userMove
    /\ In computerMove moves
    /\ GameLogic.determineWinner moves (Str userMove) (Str computerMove)
       = Return o
    /\ output (main host (argvOf moves) (start (answer :: rest)))
       = shownBeforeInput
           (createHmac (crypto host) "sha3-256"
                       (randomBytes (crypto host) 0 32) computerMove) moves
           ++ [YourMove (Str userMove); ComputersMove (Str computerMove);
               Result o; HmacKeyLine (randomBytes (crypto host) 0 32)]
    /\ result (main host (argvOf moves) (start (answer :: rest))) = Return tt.
Proof.
  intros Hvalid Hrandom Hnum Hsel.
  destruct (session_runs host moves Hvalid Hrandom) as (i & m & Hi & _ & Hcons).
  destruct (get_selected moves q Hsel) as (Hgate & u & Hu & Hget).
  assert (Hhelp : String.eqb (trim answer) "?" = false).
  { apply String.eqb_neq. intros E. rewrite E in Hnum. discriminate Hnum. }
  assert (Hexit : String.eqb (trim answer) "0" = false).
  { apply String.eqb_neq. intros E. rewrite E in Hnum.
    assert (Hq : q = (0 * 1 # 1 * 1)%Q) by (injection Hnum as <-; reflexivity).
    rewrite Hq in Hsel. cbn in Hsel. discriminate Hsel. }
  assert (Hmu : In u moves) by (eapply nth_error_In; eassumption).
  assert (Hmm : In m moves) by (eapply nth_error_In; eassumption).
  assert (Hret : exists o, GameLogic.determineWinner moves (Str u) (Str m) = Return o).
  { destruct (GameLogic.determineWinner moves (Str u) (Str m)) as [o|e|] eqn:E.
    - eauto.
    - exfalso. unfold GameLogic.determineWinner in E.
      replace (indexOf moves (Str u) =? -1) with false in E
        by (symmetry; apply not_true_iff_false; rewrite indexOf_minus_one; tauto).
      replace (indexOf moves (Str m) =? -1) with false in E
        by (symmetry; apply not_true_iff_false; rewrite indexOf_minus_one; tauto).
      cbn [orb] in E.
      repeat match type of E with
             | (if ?t then _ else _) = _ => destruct t
             end; discriminate E.
    - exfalso. now apply (determineWinner_not_pending moves (Str u) (Str m)). }
  destruct Hret as [o Ho].
  exists u, m, o. rewrite Hcons. cbn [output result].
  split; [assumption|]. split; [assumption|]. split; [assumption|].
  split; [|reflexivity].
  unfold replyTo, RPSGame.determineWinner.
  cbn [controllerOf GameController.constructor gameOf GameController.moves
       GameController.game RPSGame.hmacKey RPSGame.gameLogic].
  rewrite Hhelp, Hexit, Hnum, Hgate, Hget, Ho. reflexivity.
Qed.

Lemma numbered_input_is_played_witness :
  exists (userMove computerMove : string) (o : Outcome),
    nth_error rpsls (Z.to_nat (Qfloor 4 - 1)) = Some userMove
    /\ In computerMove rpsls
    /\ GameLogic.determineWinner rpsls (Str userMove) (Str computerMove)
       = Return o
    /\ output (main exampleHost (argvOf rpsls) (start [" 4.0"]))
       = shownBeforeInput
           (createHmac (crypto exampleHost) "sha3-256"
                       (randomBytes (crypto exampleHost) 0 32) computerMove) rpsls
           ++ [YourMove (Str userMove); ComputersMove (Str computerMove);
               Result o; HmacKeyLine (randomBytes (crypto exampleHost) 0 32)]
    /\ result (main exampleHost (argvOf rpsls) (start [" 4.0"])) = Return tt.
Proof.
  apply (numbered_input_is_played exampleHost rpsls " 4.0" [] 4);
    [exact validMoveSet_rpsls | exact validRandom_exampleHost
     | reflexivity | reflexivity].
Defined.

Lemma In_indexed {A : Type} (arr : list A) (i : nat) (x : A) :
  In (i, x) (combine (seq 0 (List.length arr)) arr) <-> nth_error arr i = Some x.
Proof.
  rewrite In_iff_nth_error. split.
  - intros [j Hj]. rewrite nth_error_indexed in Hj.
    destruct (nth_error arr j) as [y|] eqn:E; [|discriminate Hj].
    cbn [option_map Nat.add] in Hj. injection Hj as <- <-. exact E.
  - intros H. exists i. now rewrite nth_error_indexed, H.
Qed.

Lemma selectsMove_integer (k n : Z) :
  selectsMove (Finite (inject_Z k)) n = true <-> 1 <= k <= n.
Proof.
  cbn [selectsMove]. rewrite Qfloor_Z, Qeq_bool_refl. cbn [andb].
  rewrite andb_true_iff, !Z.leb_le. tauto.
Qed.

(** X18.  The menu and the lookup agree: [printAvailableMoves] prints the
    line [k - m] exactly when the number [k] denotes a move and
    [moves[k - 1]], the lookup that [playGame] makes for the input [k], is
    the move [m]. *)
Theorem menu_numbers_select_their_moves (this : GameController.t) (w : World)
  (k : Z) (m : string) :
  In (MoveItem k m) (output (GameController.printAvailableMoves this w))
  <-> selectsMove (Finite (inject_Z k)) (JS.length (GameController.moves this))
      = true
      /\ get (GameController.moves this) (sub (Finite (inject_Z k)) 1) = Str m.
Proof.
  rewrite printAvailableMoves_run. cbn [output]. unfold availableLines.
  set (moves := GameController.moves this). split.
  - intros [H|H]; [discriminate H|].
    apply in_app_iff in H. destruct H as [H|[H|[H|[]]]]; try discriminate H.
    apply in_map_iff in H. destruct H as ([i x] & Heq & Hin).
    cbn [fst snd] in Heq. injection Heq as <- <-.
    apply In_indexed in Hin.
    assert (Hi : (i < List.length moves)%nat)
      by (apply nth_error_Some; congruence).
    assert (Hsel : selectsMove (Finite (inject_Z (Z.of_nat i + 1)))
                     (JS.length moves) = true)
      by (apply selectsMove_integer; unfold JS.length; lia).
    split; [exact Hsel|].
    destruct (get_selected moves _ Hsel) as (_ & u & Hu & ->).
    rewrite Qfloor_Z in Hu.
    replace (Z.to_nat (Z.of_nat i + 1 - 1)) with i in Hu by lia. congruence.
  - intros [Hsel Hget].
    destruct (get_selected moves _ Hsel) as (_ & u & Hu & Hget').
    rewrite Hget' in Hget. injection Hget as ->. rewrite Qfloor_Z in Hu.
    apply selectsMove_integer in Hsel.
    right. apply in_app_iff. left. apply in_map_iff.
    exists (Z.to_nat (k - 1), m). cbn [fst snd]. split.
    + f_equal. lia.
    + now apply In_indexed.
Qed.

Lemma trimStart_white_space (before s : string) :
  allWhiteSpace before = true -> trimStart (before ++ s) = trimStart s.
Proof.
  unfold allWhiteSpace. induction before as [|c before IH]; [reflexivity|].
  cbn [list_ascii_of_string forallb append trimStart]. intros H.
  apply andb_true_iff in H. destruct H as [Hc H]. rewrite Hc. now apply IH.
Qed.

Lemma trimEnd_all_white_space (s : string) :
  allWhiteSpace s = true -> trimEnd s = "".
Proof.
  unfold allWhiteSpace. induction s as [|c s IH]; [reflexivity|].
  cbn [list_ascii_of_string forallb trimEnd]. intros H.
  apply andb_true_iff in H. destruct H as [Hc H]. now rewrite IH, Hc.
Qed.

Lemma trimEnd_white_space (s afterwards : string) :
  allWhiteSpace afterwards = true -> trimEnd (s ++ afterwards) = trimEnd s.
Proof.
  intros H. induction s as [|c s IH].
  - now apply trimEnd_all_white_space.
  - cbn [append trimEnd]. now rewrite IH.
Qed.

Lemma trim_white_space (before s afterwards : string) :
  allWhiteSpace before = true -> allWhiteSpace afterwards = true ->
  trim (before ++ s ++ afterwards) = trim s.
Proof.
  intros Hb Ha. unfold trim. rewrite (trimStart_white_space before _ Hb).
  induction s as [|c s IH].
  - cbn [append trimStart].
    assert (Hs : forall t, allWhiteSpace t = true -> trimStart t = "").
    { unfold allWhiteSpace. induction t as [|d t IHt]; [reflexivity|].
      cbn [list_ascii_of_string forallb trimStart]. intros H.
      apply andb_true_iff in H. destruct H as [Hd H]. rewrite Hd. now apply IHt. }
    now rewrite Hs.
  - cbn [append trimStart]. destruct (isWhiteSpace c); [exact IH|].
    change (String c (s ++ afterwards)) with (String c s ++ afterwards)%string.
    now apply trimEnd_white_space.
Qed.

(** X19.  White space around the line typed is ignored: a line preceded and
    followed by any tabs, line feeds, vertical tabs, form feeds, carriage
    returns, spaces and no-break spaces gives the same output and the same
    ending as the line alone. *)
Theorem surrounding_white_space_is_ignored (host : Host) (moves : list string)
  (before answer afterwards : string) (rest : list string) :
  allWhiteSpace before = true -> allWhiteSpace afterwards = true ->
  output (main host (argvOf moves)
            (start ((before ++ answer ++ afterwards)%string :: rest)))
  = output (main host (argvOf moves) (start (answer :: rest)))
  /\ result (main host (argvOf moves)
               (start ((before ++ answer ++ afterwards)%string :: rest)))
     = result (main host (argvOf moves) (start (answer :: rest))).
Proof.
  intros Hb Ha.
  pose proof (trim_white_space before answer afterwards Hb Ha) as Htrim.
  destruct (rejected moves) eqn:E.
  - rewrite !(main_rejects host moves _ E). split; reflexivity.
  - rewrite !(main_accepts host moves _ E), !playGame_run. cbv zeta.
    cbn [start stdin randomBytesCalls mathRandomCalls worldAfter].
    destruct (get _ _); [split; reflexivity|].
    cbn [output result]. rewrite Htrim. split; reflexivity.
Qed.

Lemma surrounding_white_space_is_ignored_witness :
  output (main exampleHost (argvOf rpsls)
            (start [(String (ascii_of_nat 160) (String (ascii_of_nat 9) "")
                     ++ "2" ++ "  ")%string]))
  = output (main exampleHost (argvOf rpsls) (start ["2"]))
  /\ result (main exampleHost (argvOf rpsls)
               (start [(String (ascii_of_nat 160) (String (ascii_of_nat 9) "")
                        ++ "2" ++ "  ")%string]))
     = result (main exampleHost (argvOf rpsls) (start ["2"])).
Proof.
  apply (surrounding_white_space_is_ignored exampleHost rpsls
           (String (ascii_of_nat 160) (String (ascii_of_nat 9) "")) "2" "  " []);
    reflexivity.
Defined.

(** X20.  Every session on a valid move set, whatever the input, calls
    [randomBytes] once and [Math.random] once, and reads at most one line:
    the first line of the input when there is one. *)
Theorem accepted_session_draws_once (host : Host) (moves input : list string) :
  validMoveSet moves -> validRandom host ->
  randomBytesCalls (after (main host (argvOf moves) (start input))) = 1%nat
  /\ mathRandomCalls (after (main host (argvOf moves) (start input))) = 1%nat
  /\ stdin (after (main host (argvOf moves) (start input))) = tl input.
Proof.
  intros Hvalid Hrandom.
  destruct (session_runs host moves Hvalid Hrandom) as (i & m & _ & Hnil & Hcons).
  destruct input as [|answer rest]; [rewrite Hnil | rewrite Hcons];
    repeat split; reflexivity.
Qed.

Lemma accepted_session_draws_once_witness :
  randomBytesCalls
    (after (main exampleHost (argvOf rps) (start ["?"; "2"; "3"]))) = 1%nat
  /\ mathRandomCalls
       (after (main exampleHost (argvOf rps) (start ["?"; "2"; "3"]))) = 1%nat
  /\ stdin (after (main exampleHost (argvOf rps) (start ["?"; "2"; "3"])))
     = tl ["?"; "2"; "3"].
Proof.
  apply (accepted_session_draws_once exampleHost rps ["?"; "2"; "3"]);
    [exact validMoveSet_rps | exact validRandom_exampleHost].
Defined.

(** X21.  [playGame] on a controller whose array of moves is empty: the
    computer's move is [undefined], [generateHMAC] throws on it, and the
    handler prints that error; nothing else is printed and no line is
    read. *)
Theorem playGame_without_moves (host : Host) (game : RPSGame.t) (w : World) :
  GameController.playGame host (GameController.constructor game []) w
  = {| output := [ErrorLine TypeError];
       after := {| stdin := stdin w;
                   randomBytesCalls := randomBytesCalls w;
                   mathRandomCalls := S (mathRandomCalls w) |};
       result := Return tt |}.
Proof.
  rewrite playGame_run. cbv zeta.
  cbn [GameController.constructor GameController.moves].
  assert (Hget : forall x, get [] x = undefined).
  { intros [| |q]; try reflexivity. cbn [get].
    destruct (Qeq_bool _ _ && _); [|reflexivity].
    now destruct (Z.to_nat (Qfloor q)). }
  rewrite Hget. reflexivity.
Qed.

(** ** The layout of the help table, [RPSHelper.displayHelpTable] *)

Lemma length_append (a b : string) :
  String.length (a ++ b) = (String.length a + String.length b)%nat.
Proof. induction a as [|c a IH]; cbn; [reflexivity | now rewrite IH]. Qed.

Lemma length_padEnd (s : string) (targetLength : nat) (fill : ascii) :
  String.length (padEnd s targetLength fill)
  = Nat.max (String.length s) targetLength.
Proof.
  unfold padEnd. rewrite length_append.
  assert (H : forall k, String.length (string_of_list_ascii (repeat fill k)) = k).
  { induction k as [|k IH]; cbn; [reflexivity | now rewrite IH]. }
  rewrite H. lia.
Qed.

Lemma length_join (separator : string) (arr : list string) :
  arr <> [] ->
  (String.length (join separator arr) + String.length separator)%nat
  = list_sum (map (fun x => (String.length x + String.length separator)%nat) arr).
Proof.
  induction arr as [|x rest IH]; [congruence|]. intros _.
  destruct rest as [|y rest].
  - cbn. lia.
  - change (join separator (x :: y :: rest))
      with (x ++ separator ++ join separator (y :: rest))%string.
    specialize (IH ltac:(discriminate)).
    rewrite !length_append.
    change (list_sum (map (fun x => (String.length x + String.length separator)%nat)
                          (x :: y :: rest)))
      with (String.length x + String.length separator
            + list_sum (map (fun x => (String.length x + String.length separator)%nat)
                            (y :: rest)))%nat.
    rewrite <- IH. lia.
Qed.

Lemma list_sum_cons {A : Type} (f : A -> nat) (x : A) (arr : list A) :
  list_sum (map f (x :: arr)) = (f x + list_sum (map f arr))%nat.
Proof. reflexivity. Qed.

Lemma list_sum_constant {A : Type} (f : A -> nat) (c : nat) (arr : list A) :
  (forall x, In x arr -> f x = c) ->
  list_sum (map f arr) = (List.length arr * c)%nat.
Proof.
  induction arr as [|x arr IH]; intros H; [reflexivity|].
  rewrite list_sum_cons. cbn [List.length]. rewrite (H x) by now left.
  rewrite IH by (intros y Hy; apply H; now right). lia.
Qed.

Lemma displayHelpTable_run (moves : list string) (w : World) :
  RPSHelper.displayHelpTable moves w
  = {| output := tl (helpLines moves); after := w; result := Return tt |}.
Proof.
  unfold RPSHelper.displayHelpTable, RPSHelper.printTableLine, helpLines.
  cbv zeta.
  ran ltac:(reflexivity). ran ltac:(reflexivity). ran ltac:(reflexivity).
  ran ltac:(reflexivity). rewrite forEach_log2. reflexivity.
Qed.

(** X22.  When no label has more than nine characters the help table is
    aligned: the separator lines, the header and every row that
    [displayHelpTable] prints are [15 + 12 * N] characters wide. *)
Theorem help_table_is_aligned (moves : list string) (w : World) (l : line)
  (text : string) :
  moves <> [] ->
  (forall move, In move moves -> (String.length move <= 9)%nat) ->
  In l (output (RPSHelper.displayHelpTable moves w)) ->
  lineText l = Some text ->
  String.length text = (15 + 12 * List.length moves)%nat.
Proof.
  intros Hne Hshort Hin Htext.
  rewrite displayHelpTable_run in Hin. cbn [output] in Hin.
  assert (Hout : In l (helpLines moves)) by (now right).
  clear Hin. unfold helpLines in Hout. cbv zeta in Hout.
  remember (15 + JS.length moves * 12) as t eqn:Et in Hout.
  unfold JS.length in Et.
  assert (Hn : (0 < List.length moves)%nat)
    by (destruct moves; [congruence | cbn; lia]).
  assert (Hjoin : forall (A : Type) (f : A -> string) (arr : list A),
    List.length arr = List.length moves ->
    (forall x, In x arr -> String.length (f x) = 9%nat) ->
    String.length (join " | " (map f arr)) = (12 * List.length moves - 3)%nat).
  { intros A f arr Hlen Hf.
    assert (Hmap : map f arr <> [])
      by (destruct arr; [cbn in Hlen; lia | discriminate]).
    pose proof (length_join " | " (map f arr) Hmap) as Hj.
    rewrite map_map in Hj.
    rewrite (list_sum_constant _ 12 arr) in Hj
      by (intros x Hx; rewrite (Hf x Hx); reflexivity).
    cbn [String.length] in Hj. lia. }
  apply in_app_iff in Hout. destruct Hout as [Hout|Hout].
  - destruct Hout as [<-|[<-|[<-|[<-|[<-|[]]]]]]; try discriminate Htext;
      cbn [lineText] in Htext; injection Htext as <-.
    + rewrite length_padEnd. cbn [String.length]. lia.
    + repeat first [rewrite length_append | progress cbn [String.length]].
      rewrite Hjoin; [lia | reflexivity |].
      intros move Hmove. rewrite length_padEnd. specialize (Hshort move Hmove). lia.
    + rewrite length_padEnd. cbn [String.length]. lia.
  - apply in_flat_map in Hout. destruct Hout as (row & Hrow & [<-|[<-|[]]]).
    + unfold RPSHelper.generateTable in Hrow. apply in_map_iff in Hrow.
      destruct Hrow as ([i move] & <- & Him). cbn [fst snd] in *.
      apply In_indexed, nth_error_In in Him.
      cbn [lineText] in Htext. injection Htext as <-.
      repeat first [rewrite length_append | progress cbn [String.length]].
      rewrite length_padEnd, Hjoin.
      * cbn [String.length cellText]. specialize (Hshort move Him). lia.
      * unfold RPSHelper.rowCells. now rewrite length_map, length_seq.
      * intros c Hc. unfold RPSHelper.rowCells in Hc. apply in_map_iff in Hc.
        destruct Hc as (j & <- & _). rewrite length_padEnd.
        now destruct (RPSHelper.determineOutcome _ _ _).
    + cbn [lineText] in Htext. injection Htext as <-.
      rewrite length_padEnd. unfold JS.length. cbn [String.length]. lia.
Qed.

Lemma help_table_is_aligned_witness :
  String.length "| Scissors     | Win       | Lose      | Draw     |"
  = (15 + 12 * List.length rps)%nat.
Proof.
  apply (help_table_is_aligned rps (start [])
           (TableRow [Label "Scissors"; Cell Win; Cell Lose; Cell Draw])).
  - discriminate.
  - intros move [<-|[<-|[<-|[]]]]; cbn; lia.
  - vm_compute. repeat first [left; reflexivity | right].
  - reflexivity.
Defined.

(** X23.  A label of more than nine characters breaks the alignment: the
    header of the help table is then wider than its separator lines. *)
Theorem long_label_widens_header (moves : list string) (move text : string) :
  In move moves -> (9 < String.length move)%nat ->
  lineText (TableHeader moves) = Some text ->
  (15 + 12 * List.length moves < String.length text)%nat.
Proof.
  intros Hin Hlong Htext. cbn [lineText] in Htext. injection Htext as <-.
  assert (Hne : map (fun m => padEnd m 9 " ") moves <> [])
    by (destruct moves; [contradiction | discriminate]).
  pose proof (length_join " | " _ Hne) as Hj. rewrite map_map in Hj.
  assert (Hsum : (12 * List.length moves
                  < list_sum (map (fun m => String.length (padEnd m 9 " ")
                                            + String.length " | ") moves))%nat).
  { clear Hj Hne. induction moves as [|m moves IH]; [contradiction|].
    rewrite list_sum_cons. cbn [List.length]. rewrite length_padEnd.
    assert (Hall : forall l : list string,
      (12 * List.length l
       <= list_sum (map (fun m => String.length (padEnd m 9 " ")
                                  + String.length " | ") l))%nat).
    { induction l as [|y l IHl]; [cbn; lia|].
      rewrite list_sum_cons. cbn [List.length]. rewrite length_padEnd.
      cbn [String.length] in *. lia. }
    destruct Hin as [->|Hin].
    - specialize (Hall moves). cbn [String.length] in *. lia.
    - specialize (IH Hin). cbn [String.length] in *. lia. }
  repeat first [rewrite length_append | progress cbn [String.length]].
  cbn [String.length] in *. lia.
Qed.

Lemma long_label_widens_header_witness :
  (15 + 12 * List.length ["Rock"; "Paper"; "Sledgehammer"]
   < String.length
       "| v PC\User >  | Rock      | Paper     | Sledgehammer|")%nat.
Proof.
  apply (long_label_widens_header ["Rock"; "Paper"; "Sledgehammer"]
           "Sledgehammer").
  - simpl. tauto.
  - cbn. lia.
  - reflexivity.
Defined.

(** Lines whose literal binary64 rounds to an integer, or that carry a
    no-break space, are played like the plain number: [Number] rounds
    [0.99999999999999999999] and [1.0000000000000000001] to [1], and [trim]
    strips U+00A0. *)
Example rounded_and_padded_lines_are_played :
  map (fun answer => output (main exampleHost (argvOf rpsls) (start [answer])))
      ["0.99999999999999999999"; "1.0000000000000000001";
       String (ascii_of_nat 160) "1"]
  = let played :=
      shownBeforeInput "sha3-256/6b6579/Paper" rpsls
        ++ [YourMove (Str "Rock"); ComputersMove (Str "Paper"); Result Win;
            HmacKeyLine "6b6579"] in
    [played; played; played].
Proof. vm_compute. reflexivity. Qed.
